(** * pyflink.ml.api: the stage hierarchy of flink-ml's Python API

    The module [flink-ml-python/pyflink/ml/api.py] declares five abstract
    classes: [Stage], [AlgoOperator], [Transformer], [Model] and
    [Estimator].  What the module does when it is imported is to create
    these five class objects; what its users do is to subclass them,
    instantiate the subclasses and call their methods.

    The development therefore has three layers:

    - the part of Python's object model the module relies on: class
      creation (the bases a [class] statement records, the C3 method
      resolution order, the abstract-method bookkeeping of [ABCMeta]),
      attribute lookup along the MRO, calls, instantiation and [except]
      matching;
    - the module itself: one Rocq [Module] per class, holding the body of
      each method as a function and the class statement as data;
    - the properties of the hierarchy, stated over every environment that
      can be reached from the imported module by further class statements.
*)

From stdpp Require Import base option list strings sorting gmap.

Set Warnings "-register-all".

(** ** Values, exceptions, outcomes *)

(** The values that flow through the interface.  Tables and table
    environments belong to the execution engine and are opaque handles. *)
Inductive value : Type :=
| VNone
| VStr (s : string)
| VTable (handle : nat)
| VTableEnv (handle : nat)
| VList (items : list value)
| VInstance (cls : string) (oid : nat)
| VClass (cls : string).

#[global] Instance value_inhabited : Inhabited value := populate VNone.

(** An exception object: its class and the message it was built with. *)
Record exn := Exn { exn_class : string; exn_msg : string }.

(** A call either returns or raises. *)
Inductive outcome (A : Type) : Type :=
| Return (a : A)
| Raise (x : exn).

Arguments Return {A} a.
Arguments Raise {A} x.

#[global] Instance outcome_ret : MRet outcome := λ A a, Return a.

#[global] Instance outcome_bind : MBind outcome :=
  λ A B f m, match m with Return a => f a | Raise x => Raise x end.

Definition returned {A} (o : outcome A) : option A :=
  match o with Return a => Some a | Raise _ => None end.

Definition raised {A} (o : outcome A) : option exn :=
  match o with Return _ => None | Raise x => Some x end.

(** ** Class statements *)

(** Annotations, as written in signatures: [None], a name ([str],
    [Table], ['Model']), a type variable ([T]), a subscription
    ([List[Table]], [Model[M]]). *)
Inductive annot : Type :=
| ANone
| AName (n : string)
| ATypeVar (n : string)
| ASub (n : string) (args : list annot).

Inductive param_kind := Positional | VarPositional.

(** A parameter after the receiver ([self] or [cls]). *)
Record param := Param { p_name : string; p_kind : param_kind; p_annot : annot }.

Inductive method_kind := InstanceMethod | ClassMethod.

(** A function of a class body: its decorators ([@classmethod],
    [@abstractmethod]), its signature and its body.  The body receives
    the receiver and the positional arguments. *)
Record method := Method {
  m_kind : method_kind;
  m_abstract : bool;
  m_params : list param;
  m_returns : annot;
  m_body : value → list value → outcome value
}.

(** A base as written between the parentheses of a class statement. *)
Inductive base_expr :=
| BaseName (n : string)
| BaseSub (n : string) (targs : list string).

Record class_decl := ClassDecl {
  c_name : string;
  c_bases : list base_expr;
  c_methods : gmap string method
}.

(** A class object: [__bases__], [__mro__], the public functions of
    [__dict__] and [__abstractmethods__]. *)
Record class_obj := ClassObj {
  co_bases : list string;
  co_mro : list string;
  co_dict : gmap string method;
  co_abstract : gset string
}.

(** The classes bound in the interpreter, by name.  Class objects are
    identified with their names. *)
Abbreviation class_env := (gmap string class_obj).

(** ** Class creation *)

Definition is_subscript (b : base_expr) : bool :=
  match b with BaseSub _ _ => true | BaseName _ => false end.

(** [typing]'s [__mro_entries__]: a subscripted class stands for the
    class, and [Generic[...]] is dropped when a later base is subscripted
    (that base brings [Generic] along). *)
Fixpoint mro_entries (bs : list base_expr) : list string :=
  match bs with
  | [] => []
  | BaseName n :: r => n :: mro_entries r
  | BaseSub n _ :: r =>
      if bool_decide (n = "Generic") && existsb is_subscript r
      then mro_entries r
      else n :: mro_entries r
  end.

Definition runtime_bases (bs : list base_expr) : list string :=
  match mro_entries bs with [] => ["object"] | l => l end.

(** C3 linearisation, as CPython's [pmerge]: the next class is the first
    head that occurs in no tail. *)
Definition in_tail (c : string) (s : list string) : bool :=
  bool_decide (c ∈ tail s).

Fixpoint find_candidate (all seqs : list (list string)) : option string :=
  match seqs with
  | [] => None
  | [] :: r => find_candidate all r
  | (c :: _) :: r =>
      if existsb (in_tail c) all then find_candidate all r else Some c
  end.

Definition drop_head (c : string) (s : list string) : list string :=
  match s with
  | x :: t => if decide (x = c) then t else s
  | [] => []
  end.

Definition exhausted (seqs : list (list string)) : bool :=
  forallb (λ s, bool_decide (s = [])) seqs.

Fixpoint c3_merge (fuel : nat) (seqs : list (list string)) : option (list string) :=
  if exhausted seqs then Some []
  else match fuel with
       | 0 => None
       | S f =>
           c ← find_candidate seqs seqs;
           (c ::.) <$> c3_merge f (drop_head c <$> seqs)
       end.

(** One round of the merge consumes at least one name, so the total
    length of the sequences is enough fuel. *)
Definition linearize (mros : list (list string)) (bases : list string) : option (list string) :=
  let seqs := mros ++ [bases] in
  c3_merge (length (concat seqs)) seqs.

Definition lookup_class (e : class_env) (n : string) : outcome class_obj :=
  match e !! n with
  | Some co => Return co
  | None => Raise (Exn "NameError" ("name '" +:+ n +:+ "' is not defined"))
  end.

(** The first class of a resolution order whose [__dict__] has [name]. *)
Fixpoint lookup_mro (e : class_env) (name : string) (mro : list string)
  : option (string * method) :=
  match mro with
  | [] => None
  | c :: r =>
      match e !! c ≫= λ co, co_dict co !! name with
      | Some m => Some (c, m)
      | None => lookup_mro e name r
      end
  end.

Definition is_abstract (a : option (string * method)) : bool :=
  match a with Some (_, m) => m_abstract m | None => false end.

(** [ABCMeta.__new__]: the abstract names of the class body, and the
    abstract names of each base that still resolve to an abstract
    function on the new class. *)
Definition abstract_methods (e : class_env) (name : string)
    (ns : gmap string method) (rest : list string) (bases : list class_obj)
  : gset string :=
  let attr n :=
    match ns !! n with
    | Some m => Some (name, m)
    | None => lookup_mro e n rest
    end in
  dom (filter (λ kv, m_abstract kv.2 = true) ns)
  ∪ ⋃ ((λ b, filter (λ n, is_abstract (attr n) = true) (co_abstract b)) <$> bases).

(** Executing a class statement.  The metaclass is [ABCMeta] exactly when
    [ABC] is among the ancestors; other classes carry no
    [__abstractmethods__].  Rebinding a class name would break the
    identification of classes with names, so it is refused. *)
Definition define_class (e : class_env) (d : class_decl) : outcome class_env :=
  match e !! c_name d with
  | Some _ => Raise (Exn "RuntimeError" ("class " +:+ c_name d +:+ " is already bound"))
  | None =>
      let bases := runtime_bases (c_bases d) in
      bobjs ← mapM (lookup_class e) bases;
      match linearize (co_mro <$> bobjs) bases with
      | None =>
          Raise (Exn "TypeError"
                   "Cannot create a consistent method resolution order (MRO)")
      | Some rest =>
          let mro := c_name d :: rest in
          let abstract :=
            if bool_decide ("ABC" ∈ mro)
            then abstract_methods e (c_name d) (c_methods d) rest bobjs
            else ∅ in
          Return (<[c_name d := ClassObj bases mro (c_methods d) abstract]> e)
      end
  end.

(** Executing the class statements of a module in order. *)
Fixpoint exec_module (e : class_env) (ds : list class_decl) : outcome class_env :=
  match ds with
  | [] => Return e
  | d :: r => e' ← define_class e d; exec_module e' r
  end.

(** [e] is reached from [e0] by executing further class statements. *)
Definition extends (e0 e : class_env) : Prop :=
  ∃ ds, exec_module e0 ds = Return e.

(** ** Attribute lookup, subclass tests, calls, instantiation *)

(** [getattr(C, name)]: the defining class and the function found. *)
Definition class_getattr (e : class_env) (C name : string)
  : option (string * method) :=
  co ← e !! C; lookup_mro e name (co_mro co).

Definition callable (e : class_env) (C name : string) : bool :=
  bool_decide (is_Some (class_getattr e C name)).

Definition abstractmethods (e : class_env) (C : string) : gset string :=
  default ∅ (co_abstract <$> e !! C).

Definition issubclass (e : class_env) (C B : string) : bool :=
  match e !! C with
  | Some co => bool_decide (B ∈ co_mro co)
  | None => false
  end.

Definition builtin_type (v : value) : string :=
  match v with
  | VNone => "NoneType"
  | VStr _ => "str"
  | VTable _ => "Table"
  | VTableEnv _ => "StreamTableEnvironment"
  | VList _ => "list"
  | VInstance C _ => C
  | VClass _ => "type"
  end.

Definition isinstance (e : class_env) (v : value) (B : string) : bool :=
  match v with
  | VInstance C _ => issubclass e C B
  | _ => bool_decide (B = builtin_type v) || bool_decide (B = "object")
  end.

(** Whether a value is what an annotation describes.  Python does not
    check this; it is what a reader of the signature is promised. *)
Fixpoint conforms (e : class_env) (a : annot) (v : value) : bool :=
  match a with
  | ANone => match v with VNone => true | _ => false end
  | ATypeVar _ => true
  | AName n => isinstance e v n
  | ASub n args =>
      if bool_decide (n = "List") then
        match args, v with
        | [a'], VList items => forallb (conforms e a') items
        | _, _ => false
        end
      else isinstance e v n
  end.

(** Binding positional arguments to the parameters after the receiver. *)
Fixpoint arity_ok (ps : list param) (n : nat) : bool :=
  match ps with
  | [] => bool_decide (n = 0)
  | p :: r =>
      match p_kind p with
      | VarPositional => true
      | Positional => match n with 0 => false | S k => arity_ok r k end
      end
  end.

Definition apply_method (m : method) (recv : value) (args : list value)
  : outcome value :=
  if arity_ok (m_params m) (length args) then m_body m recv args
  else Raise (Exn "TypeError" "wrong number of positional arguments").

(** Calling [name] on [recv]: on an instance the function is bound to the
    instance, or to its class for a classmethod; on a class a classmethod
    is bound to the class and a plain function takes [self] from the
    arguments. *)
Definition call_method (e : class_env) (recv : value) (name : string)
    (args : list value) : outcome value :=
  let missing := Raise (Exn "AttributeError" ("no attribute '" +:+ name +:+ "'")) in
  match recv with
  | VInstance C _ =>
      match class_getattr e C name with
      | Some (_, m) =>
          match m_kind m with
          | InstanceMethod => apply_method m recv args
          | ClassMethod => apply_method m (VClass C) args
          end
      | None => missing
      end
  | VClass C =>
      match class_getattr e C name with
      | Some (_, m) =>
          match m_kind m, args with
          | ClassMethod, _ => apply_method m recv args
          | InstanceMethod, self :: rest => apply_method m self rest
          | InstanceMethod, [] =>
              Raise (Exn "TypeError" "missing 1 required positional argument: 'self'")
          end
      | None => missing
      end
  | _ => missing
  end.

Definition abstract_error (C : string) (names : gset string) : exn :=
  Exn "TypeError"
    ("Can't instantiate abstract class " +:+ C +:+ " with abstract methods "
     +:+ String.concat ", " (merge_sort (λ a b, Is_true (String.leb a b)) (elements names))).

(** [C()]: [object.__new__] refuses a class whose [__abstractmethods__]
    is not empty.  A class derived from [BaseException] is created by
    [BaseException.__new__] instead, which makes no such check.  No class
    of the module defines [__new__] or [__init__]. *)
Definition instantiate (e : class_env) (C : string) (oid : nat) : outcome value :=
  co ← lookup_class e C;
  if bool_decide ("BaseException" ∈ co_mro co) then Return (VInstance C oid)
  else if decide (co_abstract co = ∅) then Return (VInstance C oid)
  else Raise (abstract_error C (co_abstract co)).

(** [except handler:] catches [x] when the class of [x] is a subclass of
    [handler]. *)
Definition catches (e : class_env) (handler : string) (x : exn) : bool :=
  issubclass e (exn_class x) handler.

(** ** What the module imports *)

(** [object], the root of every hierarchy. *)
Definition object_class : class_obj := ClassObj [] ["object"] ∅ ∅.

Definition root_env : class_env := {[ "object" := object_class ]}.

(** [typing.Generic], [abc.ABC] and the two built-in exception classes
    the module's [raise] statements and their handlers involve.  None of
    them has a public function the module uses. *)
Definition builtin_decls : list class_decl :=
  [ ClassDecl "Generic" [] ∅;
    ClassDecl "ABC" [] ∅;
    ClassDecl "BaseException" [] ∅;
    ClassDecl "Exception" [BaseName "BaseException"] ∅ ].

(** [Exception(msg)] *)
Definition Exception (msg : string) : exn := Exn "Exception" msg.

Module WithParams.

(** Modelled from the spec: [pyflink.ml.param.WithParams] is imported by
    the module and not among its sources; the spec names it only as the
    parameter framework behind every stage.  The module subscripts it
    ([WithParams[T]]), so it is a generic class; like the other
    interfaces of the package it is taken to be an [ABC].  Its functions
    are a parameter of the whole development. *)
Definition decl (own : gmap string method) : class_decl :=
  ClassDecl "WithParams" [BaseSub "Generic" ["T"]; BaseName "ABC"] own.

End WithParams.

(** ** The module pyflink/ml/api.py *)

(** How a [def] receives its positional arguments. *)
Definition bad_call : outcome value :=
  Raise (Exn "TypeError" "wrong number of positional arguments").

Definition nullary (f : value → outcome value) (recv : value) (args : list value)
  : outcome value :=
  match args with [] => f recv | _ => bad_call end.

Definition unary (f : value → value → outcome value) (recv : value)
    (args : list value) : outcome value :=
  match args with [a] => f recv a | _ => bad_call end.

Definition binary (f : value → value → value → outcome value) (recv : value)
    (args : list value) : outcome value :=
  match args with [a; b] => f recv a b | _ => bad_call end.

Definition List_Table : annot := ASub "List" [AName "Table"].

Module Stage.

(** [def save(self, path: str) -> None] with body [pass] *)
Definition save (self path : value) : outcome value := Return VNone.

(** [def load(cls, t_env: StreamTableEnvironment, path: str) -> T] with
    body [pass] *)
Definition load (cls t_env path : value) : outcome value := Return VNone.

Definition save_def : method :=
  Method InstanceMethod true
    [Param "path" Positional (AName "str")]
    ANone (unary save).

Definition load_def : method :=
  Method ClassMethod true
    [Param "t_env" Positional (AName "StreamTableEnvironment");
     Param "path" Positional (AName "str")]
    (ATypeVar "T") (binary load).

(** [class Stage(WithParams[T], ABC)] *)
Definition decl : class_decl :=
  ClassDecl "Stage" [BaseSub "WithParams" ["T"]; BaseName "ABC"]
    (list_to_map [("save", save_def); ("load", load_def)]).

End Stage.

Module AlgoOperator.

(** [def transform(self, *inputs: Table) -> List[Table]] with body [pass] *)
Definition transform (self : value) (inputs : list value) : outcome value :=
  Return VNone.

Definition transform_def : method :=
  Method InstanceMethod true
    [Param "inputs" VarPositional (AName "Table")]
    List_Table transform.

(** [class AlgoOperator(Stage[T], ABC)] *)
Definition decl : class_decl :=
  ClassDecl "AlgoOperator" [BaseSub "Stage" ["T"]; BaseName "ABC"]
    (list_to_map [("transform", transform_def)]).

End AlgoOperator.

Module Transformer.

(** [class Transformer(AlgoOperator[T], ABC)] with body [pass] *)
Definition decl : class_decl :=
  ClassDecl "Transformer" [BaseSub "AlgoOperator" ["T"]; BaseName "ABC"] ∅.

End Transformer.

Module Model.

(** [def set_model_data(self, *inputs: Table) -> 'Model'] *)
Definition set_model_data (self : value) (inputs : list value) : outcome value :=
  Raise (Exception "This operation is not supported.").

(** [def get_model_data(self) -> List[Table]] *)
Definition get_model_data (self : value) : outcome value :=
  Raise (Exception "This operation is not supported.").

Definition set_model_data_def : method :=
  Method InstanceMethod false
    [Param "inputs" VarPositional (AName "Table")]
    (AName "Model") set_model_data.

Definition get_model_data_def : method :=
  Method InstanceMethod false [] List_Table (nullary get_model_data).

(** [class Model(Transformer[T], ABC)] *)
Definition decl : class_decl :=
  ClassDecl "Model" [BaseSub "Transformer" ["T"]; BaseName "ABC"]
    (list_to_map [("set_model_data", set_model_data_def);
                  ("get_model_data", get_model_data_def)]).

End Model.

Module Estimator.

(** [def fit(self, *inputs: Table) -> Model[M]] with body [pass] *)
Definition fit (self : value) (inputs : list value) : outcome value :=
  Return VNone.

Definition fit_def : method :=
  Method InstanceMethod false
    [Param "inputs" VarPositional (AName "Table")]
    (ASub "Model" [ATypeVar "M"]) fit.

(** [class Estimator(Generic[E, M], Stage[E], ABC)] *)
Definition decl : class_decl :=
  ClassDecl "Estimator"
    [BaseSub "Generic" ["E"; "M"]; BaseSub "Stage" ["E"]; BaseName "ABC"]
    (list_to_map [("fit", fit_def)]).

End Estimator.

(** The class statements of the module, in source order. *)
Definition api_decls : list class_decl :=
  [Stage.decl; AlgoOperator.decl; Transformer.decl; Model.decl; Estimator.decl].

(** Importing the module: its imports first, then its own statements. *)
Definition import_api (wp : gmap string method) : outcome class_env :=
  exec_module root_env (builtin_decls ++ [WithParams.decl wp] ++ api_decls).

Definition api_env (wp : gmap string method) : class_env :=
  default ∅ (returned (import_api wp)).

Arguments api_env : simpl never.

(** ** Clients of the module

    Subclasses a user of the module may write.  They are not part of the
    module; they exercise it. *)

(** A function written by a client: not abstract, fixed result. *)
Definition concrete (kind : method_kind) (ps : list param) (ret : annot)
    (body : value → list value → outcome value) : method :=
  Method kind false ps ret body.

Definition client_save (body : value → value → outcome value) : method :=
  concrete InstanceMethod (m_params Stage.save_def) ANone (unary body).

Definition client_load (body : value → value → value → outcome value) : method :=
  concrete ClassMethod (m_params Stage.load_def) (ATypeVar "T") (binary body).

(** [class MinimalEstimator(Estimator)] defining [save] and [load] and
    nothing else. *)
Definition MinimalEstimator (save_body : value → value → outcome value)
    (load_body : value → value → value → outcome value) : class_decl :=
  ClassDecl "MinimalEstimator" [BaseName "Estimator"]
    (list_to_map [("save", client_save save_body);
                  ("load", client_load load_body)]).

(** [class Resize(AlgoOperator)] whose [transform] returns the [k] tables
    [outs] whatever it is given. *)
Definition Resize (outs : list nat) : class_decl :=
  ClassDecl "Resize" [BaseName "AlgoOperator"]
    (list_to_map
       [("save", client_save (λ _ _, Return VNone));
        ("load", client_load (λ _ _ _, Return VNone));
        ("transform",
         concrete InstanceMethod (m_params AlgoOperator.transform_def) List_Table
           (λ _ _, Return (VList (VTable <$> outs))))]).

(** [class PlainModel(Model)] defining [save], [load] and [transform] and
    leaving the model-data accessors alone. *)
Definition PlainModel : class_decl :=
  ClassDecl "PlainModel" [BaseName "Model"]
    (list_to_map
       [("save", client_save (λ _ _, Return VNone));
        ("load", client_load (λ _ _ _, Return VNone));
        ("transform",
         concrete InstanceMethod (m_params AlgoOperator.transform_def) List_Table
           (λ _ inputs, Return (VList inputs)))]).

(** [class ValueError(Exception)], as in the built-ins. *)
Definition ValueError : class_decl :=
  ClassDecl "ValueError" [BaseName "Exception"] ∅.


(** [class MinimalModel(Model)] defining [save], [load] and [transform]
    and nothing else. *)
Definition MinimalModel (save_body : value → value → outcome value)
    (load_body : value → value → value → outcome value)
    (transform_body : value → list value → outcome value) : class_decl :=
  ClassDecl "MinimalModel" [BaseName "Model"]
    (list_to_map
       [("save", client_save save_body);
        ("load", client_load load_body);
        ("transform",
         concrete InstanceMethod (m_params AlgoOperator.transform_def) List_Table
           transform_body)]).

(** [class BadOp(AlgoOperator)] whose [transform] takes exactly one
    table and returns nothing. *)
Definition BadOp : class_decl :=
  ClassDecl "BadOp" [BaseName "AlgoOperator"]
    (list_to_map
       [("save", client_save (λ _ _, Return VNone));
        ("load", client_load (λ _ _ _, Return VNone));
        ("transform",
         concrete InstanceMethod [Param "table" Positional (AName "Table")] ANone
           (unary (λ _ _, Return VNone)))]).

(** [class TransformError(Transformer, Exception)] with an empty body. *)
Definition TransformError : class_decl :=
  ClassDecl "TransformError" [BaseName "Transformer"; BaseName "Exception"] ∅.

(** A [WithParams] that leaves one function, [get_param_map], abstract. *)
Definition abstract_params : gmap string method :=
  {[ "get_param_map" :=
       Method InstanceMethod true [] (AName "Dict") (nullary (λ _, Return VNone)) ]}.

(** The environment after one more class statement (unchanged when the
    statement fails). *)
Definition after (e : class_env) (d : class_decl) : class_env :=
  default e (returned (define_class e d)).

Arguments after : simpl never.

(** ** Well-formed environments *)

(** The class body of [co] declares [n] abstract. *)
Definition declares_abstract (co : class_obj) (n : string) : Prop :=
  ∃ m, co_dict co !! n = Some m ∧ m_abstract m = true.

(** What class creation guarantees of every class it has bound: the
    resolution order starts with the class, contains its bases and the
    resolution order of each of its members, and [__abstractmethods__]
    holds exactly the names that resolve to an abstract function and were
    declared abstract by the class or left abstract by a base. *)
Record wf_env (e : class_env) : Prop := WfEnv {
  wf_closed C co D :
    e !! C = Some co → D ∈ co_mro co →
    ∃ cd, e !! D = Some cd ∧ co_mro cd ⊆ co_mro co;
  wf_head C co :
    e !! C = Some co → head (co_mro co) = Some C;
  wf_bases C co :
    e !! C = Some co → co_bases co ⊆ co_mro co;
  wf_abstract C co n :
    e !! C = Some co →
    n ∈ co_abstract co ↔
      "ABC" ∈ co_mro co ∧
      is_abstract (lookup_mro e n (co_mro co)) = true ∧
      (declares_abstract co n ∨
       ∃ b, b ∈ co_bases co ∧ n ∈ abstractmethods e b)
}.

(** ** Abstract names are never lost *)

(** In [e], a class whose lookup of a name ends at an abstract function
    of an [ABC] class has that name in its [__abstractmethods__]. *)
Definition abstract_blocking (e : class_env) : Prop :=
  ∀ C co n D m cd,
    e !! C = Some co →
    lookup_mro e n (co_mro co) = Some (D, m) → m_abstract m = true →
    e !! D = Some cd → "ABC" ∈ co_mro cd →
    n ∈ co_abstract co.

(** * Verification *)

Ltac split_all := repeat match goal with |- _ ∧ _ => split end.

(** ** The object model: resolution orders *)

Section c3.

Implicit Types (seqs : list (list string)) (s l : list string) (c x : string).

Lemma exhausted_nil seqs s : exhausted seqs = true → s ∈ seqs → s = [].
Proof.
  unfold exhausted. intros Hall Hin.
  apply Is_true_true, forallb_True in Hall.
  rewrite Forall_forall in Hall.
  specialize (Hall s Hin). by apply bool_decide_unpack in Hall.
Qed.

Lemma find_candidate_head all seqs c :
  find_candidate all seqs = Some c → ∃ s, s ∈ seqs ∧ head s = Some c.
Proof.
  induction seqs as [|[|x t] r IH]; simpl; [done| |].
  - intros H. destruct (IH H) as (s & ? & ?). exists s. split; [by right|done].
  - destruct (existsb _ _).
    + intros H. destruct (IH H) as (s & ? & ?). exists s. split; [by right|done].
    + intros [= ->]. exists (c :: t). split; [by left|done].
Qed.

Lemma drop_head_subseteq c s : drop_head c s ⊆ s.
Proof.
  destruct s as [|x t]; simpl; [done|].
  case_decide; [|done]. intros y Hy. by right.
Qed.

Lemma drop_head_keeps c s x : x ∈ s → x ≠ c → x ∈ drop_head c s.
Proof.
  destruct s as [|y t]; simpl; [done|].
  case_decide as Hy; [|done]. subst y.
  intros [->|Hx]%elem_of_cons Hne; [done|done].
Qed.

(** Every name of a merge comes from one of the merged sequences. *)
Lemma c3_merge_sound fuel seqs l x :
  c3_merge fuel seqs = Some l → x ∈ l → ∃ s, s ∈ seqs ∧ x ∈ s.
Proof.
  revert seqs l. induction fuel as [|f IH]; intros seqs l; simpl;
    destruct (exhausted seqs) eqn:Hex;
    try (intros [= <-] Hx; by apply elem_of_nil in Hx).
  destruct (find_candidate seqs seqs) as [c|] eqn:Hc; simpl; [|done].
  destruct (c3_merge f (drop_head c <$> seqs)) as [l'|] eqn:Hm; simpl; [|done].
  intros [= <-] [->|Hx]%elem_of_cons.
  - destruct (find_candidate_head _ _ _ Hc) as (s & Hs & Hhd).
    exists s. split; [done|]. destruct s; simplify_eq/=. by left.
  - destruct (IH _ _ Hm Hx) as (s' & Hs' & Hxs').
    apply list_elem_of_fmap in Hs' as (s & -> & Hs).
    exists s. split; [done|]. by eapply drop_head_subseteq.
Qed.

(** Every name of a merged sequence is in the merge. *)
Lemma c3_merge_complete fuel seqs l s x :
  c3_merge fuel seqs = Some l → s ∈ seqs → x ∈ s → x ∈ l.
Proof.
  revert seqs l s. induction fuel as [|f IH]; intros seqs l s; simpl;
    destruct (exhausted seqs) eqn:Hex;
    try (intros _ Hs Hx; rewrite (exhausted_nil _ _ Hex Hs) in Hx;
         by apply elem_of_nil in Hx); [done|].
  destruct (find_candidate seqs seqs) as [c|] eqn:Hc; simpl; [|done].
  destruct (c3_merge f (drop_head c <$> seqs)) as [l'|] eqn:Hm; simpl; [|done].
  intros [= <-] Hs Hx. destruct (decide (x = c)) as [->|Hne]; [by left|].
  right. eapply (IH _ _ (drop_head c s)); [done| |].
  - apply list_elem_of_fmap. by exists s.
  - by apply drop_head_keeps.
Qed.

Lemma linearize_sound mros bases rest x :
  linearize mros bases = Some rest → x ∈ rest →
  x ∈ bases ∨ ∃ m, m ∈ mros ∧ x ∈ m.
Proof.
  unfold linearize. intros Hm Hx.
  destruct (c3_merge_sound _ _ _ _ Hm Hx) as (s & Hs & Hxs).
  apply elem_of_app in Hs as [Hs|Hs%list_elem_of_singleton]; [right|left].
  - by exists s.
  - by subst s.
Qed.

Lemma linearize_bases mros bases rest :
  linearize mros bases = Some rest → bases ⊆ rest.
Proof.
  unfold linearize. intros Hm x Hx.
  eapply c3_merge_complete; [done| |done].
  apply elem_of_app. right. by apply list_elem_of_singleton.
Qed.

Lemma linearize_mros mros bases rest m :
  linearize mros bases = Some rest → m ∈ mros → m ⊆ rest.
Proof.
  unfold linearize. intros Hm Hin x Hx.
  eapply c3_merge_complete; [done| |done].
  apply elem_of_app. by left.
Qed.

End c3.

(** ** The object model: class creation *)

Section class_creation.

Implicit Types (e : class_env) (d : class_decl) (co : class_obj) (n C D : string).

Lemma mapM_lookup_class e ns cos :
  mapM (lookup_class e) ns = Return cos →
  Forall2 (λ n co, e !! n = Some co) ns cos.
Proof.
  revert cos. induction ns as [|n ns IH]; intros cos; simpl.
  - intros [= <-]. constructor.
  - destruct (lookup_class e n) as [co|] eqn:Hn; simpl; [|done].
    destruct (mapM (lookup_class e) ns) as [cos'|] eqn:Hm; simpl; [|done].
    intros [= <-]. constructor; [|by apply IH].
    unfold lookup_class in Hn. by destruct (e !! n); simplify_eq.
Qed.

Lemma define_class_Return e d e' :
  define_class e d = Return e' →
  ∃ bobjs rest,
    e !! c_name d = None ∧
    Forall2 (λ n co, e !! n = Some co) (runtime_bases (c_bases d)) bobjs ∧
    linearize (co_mro <$> bobjs) (runtime_bases (c_bases d)) = Some rest ∧
    e' = <[c_name d :=
             ClassObj (runtime_bases (c_bases d)) (c_name d :: rest) (c_methods d)
               (if bool_decide ("ABC" ∈ c_name d :: rest)
                then abstract_methods e (c_name d) (c_methods d) rest bobjs
                else ∅)]> e.
Proof.
  unfold define_class. destruct (e !! c_name d) eqn:Hfresh; [done|].
  destruct (mapM _ _) as [bobjs|] eqn:Hb; simpl; [|done].
  destruct (linearize _ _) as [rest|] eqn:Hl; [|done].
  intros [= <-]. exists bobjs, rest.
  eauto using mapM_lookup_class.
Qed.

Lemma define_class_subseteq e d e' : define_class e d = Return e' → e ⊆ e'.
Proof.
  intros (bobjs & rest & Hfresh & _ & _ & ->)%define_class_Return.
  by apply insert_subseteq.
Qed.

Lemma exec_module_subseteq ds e e' : exec_module e ds = Return e' → e ⊆ e'.
Proof.
  revert e. induction ds as [|d ds IH]; intros e; simpl.
  - by intros [= <-].
  - destruct (define_class e d) as [e1|] eqn:Hd; simpl; [|done].
    intros He'. etrans; [by eapply define_class_subseteq|by apply IH].
Qed.

Lemma exec_module_app ds1 ds2 e :
  exec_module e (ds1 ++ ds2) = exec_module e ds1 ≫= λ e1, exec_module e1 ds2.
Proof.
  revert e. induction ds1 as [|d ds1 IH]; intros e; simpl; [done|].
  destruct (define_class e d); simpl; [apply IH|done].
Qed.

Lemma extends_refl e : extends e e.
Proof. by exists []. Qed.

Lemma extends_trans e0 e1 e2 : extends e0 e1 → extends e1 e2 → extends e0 e2.
Proof.
  intros [ds1 H1] [ds2 H2]. exists (ds1 ++ ds2).
  by rewrite exec_module_app, H1.
Qed.

Lemma extends_define e d e' : define_class e d = Return e' → extends e e'.
Proof. intros H. exists [d]. simpl. by rewrite H. Qed.

Lemma extends_lookup e0 e C co : extends e0 e → e0 !! C = Some co → e !! C = Some co.
Proof.
  intros [ds Hds] HC. eapply lookup_weaken; [done|]. by eapply exec_module_subseteq.
Qed.

Lemma lookup_mro_agree e e' n mro :
  (∀ c, c ∈ mro → e' !! c = e !! c) →
  lookup_mro e' n mro = lookup_mro e n mro.
Proof.
  induction mro as [|c r IH]; intros Hag; simpl; [done|].
  rewrite (Hag c) by by left.
  rewrite IH; [done|]. intros c' Hc'. apply Hag. by right.
Qed.

Lemma lookup_mro_Some e n mro D m :
  lookup_mro e n mro = Some (D, m) →
  D ∈ mro ∧ ∃ cd, e !! D = Some cd ∧ co_dict cd !! n = Some m.
Proof.
  induction mro as [|c r IH]; simpl; [done|].
  destruct (e !! c ≫= _) as [m'|] eqn:Hc.
  - intros [= -> ->]. split; [by left|].
    destruct (e !! D) as [cd|]; simplify_eq/=. by exists cd.
  - intros [Hin Hcd]%IH. split; [by right|done].
Qed.

Lemma lookup_mro_is_Some e n mro D cd :
  D ∈ mro → e !! D = Some cd → is_Some (co_dict cd !! n) →
  is_Some (lookup_mro e n mro).
Proof.
  induction mro as [|c r IH]; [by intros ?%elem_of_nil|].
  intros Hin HD Hn. simpl.
  destruct (e !! c ≫= _) as [m'|] eqn:Hc; [done|].
  apply elem_of_cons in Hin as [->|Hin]; [|by apply IH].
  rewrite HD in Hc. simpl in Hc. rewrite Hc in Hn. by destruct Hn.
Qed.

Lemma elem_of_abstract_methods e name ns rest bobjs n :
  n ∈ abstract_methods e name ns rest bobjs ↔
    (∃ m, ns !! n = Some m ∧ m_abstract m = true) ∨
    (∃ b, b ∈ bobjs ∧ n ∈ co_abstract b ∧
          is_abstract (match ns !! n with
                       | Some m => Some (name, m)
                       | None => lookup_mro e n rest
                       end) = true).
Proof.
  unfold abstract_methods.
  rewrite elem_of_union, elem_of_dom, elem_of_union_list.
  f_equiv.
  - split.
    + intros [m [Hm Habs]%map_lookup_filter_Some]. by exists m.
    + intros (m & Hm & Habs). exists m. by apply map_lookup_filter_Some.
  - split.
    + intros (X & (b & -> & Hb)%list_elem_of_fmap & [Habs HX]%elem_of_filter).
      by exists b.
    + intros (b & Hb & Hn & Habs).
      eexists. split; [apply list_elem_of_fmap; by exists b|].
      by apply elem_of_filter.
Qed.

Lemma wf_root : wf_env root_env.
Proof.
  unfold root_env. split.
  - intros C co D [<- <-]%lookup_singleton_Some ->%list_elem_of_singleton.
    by exists object_class.
  - intros C co [<- <-]%lookup_singleton_Some. reflexivity.
  - intros C co [<- <-]%lookup_singleton_Some. apply list_subseteq_nil.
  - intros C co n [<- <-]%lookup_singleton_Some. simpl. split.
    + by intros ?%elem_of_empty.
    + by intros [[=]%list_elem_of_singleton _].
Qed.

End class_creation.

Section preservation.

Implicit Types (e : class_env) (d : class_decl) (co : class_obj) (n C D : string).

Lemma bases_bound_l e ns cos n :
  Forall2 (λ n co, e !! n = Some co) ns cos → n ∈ ns →
  ∃ co, co ∈ cos ∧ e !! n = Some co.
Proof.
  induction 1 as [|n' co ns cos Hn _ IH]; [by intros ?%elem_of_nil|].
  intros [->|Hin]%elem_of_cons.
  - exists co. split; [by left|done].
  - destruct (IH Hin) as (co' & ? & ?). exists co'. split; [by right|done].
Qed.

Lemma bases_bound_r e ns cos co :
  Forall2 (λ n co, e !! n = Some co) ns cos → co ∈ cos →
  ∃ n, n ∈ ns ∧ e !! n = Some co.
Proof.
  induction 1 as [|n co' ns cos Hn _ IH]; [by intros ?%elem_of_nil|].
  intros [->|Hin]%elem_of_cons.
  - exists n. split; [by left|done].
  - destruct (IH Hin) as (n' & ? & ?). exists n'. split; [by right|done].
Qed.

Lemma abstractmethods_lookup e C co : e !! C = Some co → abstractmethods e C = co_abstract co.
Proof. unfold abstractmethods. by intros ->. Qed.

(** Class creation keeps the environment well formed. *)
Lemma wf_define_class e d e' :
  wf_env e → define_class e d = Return e' → wf_env e'.
Proof.
  intros Hwf (bobjs & rest & Hfresh & Hb & Hlin & ->)%define_class_Return.
  set (name := c_name d) in *. set (bases := runtime_bases (c_bases d)) in *.
  set (new := ClassObj _ _ _ _).
  assert (Hrest : ∀ c, c ∈ rest → ∃ cd, e !! c = Some cd ∧ co_mro cd ⊆ rest).
  { intros c [Hc|(m & Hm & Hc)]%(linearize_sound _ _ _ _ Hlin).
    - destruct (bases_bound_l _ _ _ _ Hb Hc) as (cd & Hcd & Hlook).
      exists cd. split; [done|].
      eapply linearize_mros; [done|]. apply list_elem_of_fmap. by exists cd.
    - apply list_elem_of_fmap in Hm as (b & -> & Hbin).
      destruct (bases_bound_r _ _ _ _ Hb Hbin) as (bn & _ & Hbn).
      destruct (wf_closed _ Hwf _ _ _ Hbn Hc) as (cd & Hcd & Hsub).
      exists cd. split; [done|]. etrans; [done|].
      eapply linearize_mros; [done|]. apply list_elem_of_fmap. by exists b. }
  assert (Hkeep : ∀ c cd, e !! c = Some cd → <[name := new]> e !! c = Some cd).
  { intros c cd Hc. rewrite lookup_insert_ne; [done|]. by intros <-; simplify_eq. }
  assert (Hsame : ∀ c, is_Some (e !! c) → <[name := new]> e !! c = e !! c).
  { intros c [cd Hc]. by rewrite (Hkeep _ _ Hc). }
  assert (Hrest_same : ∀ c, c ∈ rest → <[name := new]> e !! c = e !! c).
  { intros c (cd & Hcd & _)%Hrest. apply Hsame. by exists cd. }
  split.
  - intros C co D [[<- <-]|[Hne HC]]%lookup_insert_Some HD.
    + apply elem_of_cons in HD as [->|HD].
      * exists new. split; [apply lookup_insert_eq|done].
      * destruct (Hrest _ HD) as (cd & Hcd & Hsub).
        exists cd. split; [by apply Hkeep|].
        intros x Hx. right. by apply Hsub.
    + destruct (wf_closed _ Hwf _ _ _ HC HD) as (cd & Hcd & Hsub).
      exists cd. split; [by apply Hkeep|done].
  - intros C co [[<- <-]|[Hne HC]]%lookup_insert_Some; [done|].
    by eapply wf_head.
  - intros C co [[<- <-]|[Hne HC]]%lookup_insert_Some.
    + intros x Hx. right. by eapply linearize_bases.
    + by eapply wf_bases.
  - intros C co n [[<- <-]|[Hne HC]]%lookup_insert_Some.
    + assert (Hattr : lookup_mro (<[name := new]> e) n (co_mro new) =
                match c_methods d !! n with
                | Some m => Some (name, m)
                | None => lookup_mro e n rest
                end).
      { simpl. rewrite lookup_insert_eq. simpl.
        destruct (c_methods d !! n); [done|]. by apply lookup_mro_agree. }
      rewrite Hattr. simpl. case_bool_decide as HABC.
      * rewrite elem_of_abstract_methods. split.
        -- intros [(m & Hm & Habs)|(b & Hbin & Hn & Habs)].
           ++ split; [done|]. rewrite Hm. split; [done|]. left. by exists m.
           ++ split; [done|]. split; [done|]. right.
              destruct (bases_bound_r _ _ _ _ Hb Hbin) as (bn & Hbn & Hlook).
              exists bn. split; [done|].
              by rewrite (abstractmethods_lookup _ _ _ (Hkeep _ _ Hlook)).
        -- intros (_ & Habs & [(m & Hm & Hm')|(bn & Hbn & Hn)]).
           ++ left. by exists m.
           ++ right. destruct (bases_bound_l _ _ _ _ Hb Hbn) as (b & Hbin & Hlook).
              exists b. split; [done|]. split; [|done].
              by rewrite (abstractmethods_lookup _ _ _ (Hkeep _ _ Hlook)) in Hn.
      * split; [by intros ?%elem_of_empty|by intros [? _]].
    + rewrite (wf_abstract _ Hwf _ _ n HC).
      assert (lookup_mro (<[name := new]> e) n (co_mro co) = lookup_mro e n (co_mro co)) as ->.
      { apply lookup_mro_agree. intros c Hc. apply Hsame.
        destruct (wf_closed _ Hwf _ _ _ HC Hc) as (cd & -> & _). by eexists. }
      assert (∀ b, b ∈ co_bases co →
                abstractmethods (<[name := new]> e) b = abstractmethods e b) as Hab.
      { intros b Hbin. unfold abstractmethods. rewrite Hsame; [done|].
        apply (wf_bases _ Hwf _ _ HC) in Hbin.
        destruct (wf_closed _ Hwf _ _ _ HC Hbin) as (cd & -> & _). by eexists. }
      split; intros (? & ? & [?|(b & Hbin & Hn)]); (split; [done|split; [done|]]);
        try (by left); right; exists b; (split; [done|]).
      * by rewrite Hab.
      * by rewrite <- Hab.
Qed.

Lemma wf_exec_module ds e e' : wf_env e → exec_module e ds = Return e' → wf_env e'.
Proof.
  revert e. induction ds as [|d ds IH]; intros e Hwf; simpl.
  - by intros [= <-].
  - destruct (define_class e d) as [e1|] eqn:Hd; simpl; [|done].
    apply IH. by eapply wf_define_class.
Qed.

Lemma wf_extends e0 e : wf_env e0 → extends e0 e → wf_env e.
Proof. intros Hwf [ds Hds]. by eapply wf_exec_module. Qed.

End preservation.

Section api.

Implicit Types (e : class_env) (co : class_obj) (n C D : string).
Implicit Types (wp : gmap string method).

Lemma import_api_returns wp : import_api wp = Return (api_env wp).
Proof.
  unfold api_env. destruct (import_api wp) as [e|x] eqn:Himp; [done|].
  assert (raised (import_api wp) = None) as Hnone by (vm_compute; reflexivity).
  by rewrite Himp in Hnone.
Qed.

Lemma wf_api wp : wf_env (api_env wp).
Proof. eapply wf_exec_module; [apply wf_root|apply import_api_returns]. Qed.

Lemma wf_api_extends wp e : extends (api_env wp) e → wf_env e.
Proof. apply wf_extends, wf_api. Qed.

(** A class bound in an environment keeps its attributes in every
    extension. *)
Lemma class_getattr_extends e0 e C n :
  wf_env e0 → extends e0 e → is_Some (e0 !! C) →
  class_getattr e C n = class_getattr e0 C n.
Proof.
  intros Hwf Hext [co HC]. unfold class_getattr.
  rewrite (extends_lookup _ _ _ _ Hext HC), HC. simpl.
  apply lookup_mro_agree. intros c Hc.
  destruct (wf_closed _ Hwf _ _ _ HC Hc) as (cd & Hcd & _).
  by rewrite (extends_lookup _ _ _ _ Hext Hcd).
Qed.

Lemma abstractmethods_extends e0 e C :
  extends e0 e → is_Some (e0 !! C) → abstractmethods e C = abstractmethods e0 C.
Proof.
  intros Hext [co HC]. unfold abstractmethods.
  by rewrite (extends_lookup _ _ _ _ Hext HC), HC.
Qed.

(** Subclasses inherit the ancestors of their ancestors. *)
Lemma issubclass_trans e C B A :
  wf_env e → issubclass e C B = true → issubclass e B A = true →
  issubclass e C A = true.
Proof.
  unfold issubclass. intros Hwf.
  destruct (e !! C) as [co|] eqn:HC; [|done].
  intros HB%bool_decide_eq_true.
  destruct (wf_closed _ Hwf _ _ _ HC HB) as (cb & -> & Hsub).
  intros HA%bool_decide_eq_true. apply bool_decide_eq_true. by apply Hsub.
Qed.

Lemma issubclass_extends e0 e C B :
  extends e0 e → issubclass e0 C B = true → issubclass e C B = true.
Proof.
  unfold issubclass. intros Hext.
  destruct (e0 !! C) as [co|] eqn:HC; [|done].
  by rewrite (extends_lookup _ _ _ _ Hext HC).
Qed.

End api.

Section clients.

Implicit Types (e : class_env) (d : class_decl).

Lemma define_class_after e d :
  raised (define_class e d) = None → define_class e d = Return (after e d).
Proof. unfold after. by destruct (define_class e d). Qed.

Lemma extends_after e d : raised (define_class e d) = None → extends e (after e d).
Proof. intros H. apply (extends_define _ d). by apply define_class_after. Qed.

(** What a lookup finds in a class bound before is what that class
    held then. *)
Lemma getattr_defined_in e0 e C D n m m' :
  extends e0 e →
  class_getattr e C n = Some (D, m) →
  e0 !! D ≫= (λ co, co_dict co !! n) = Some m' →
  m = m'.
Proof.
  intros Hext Hget Hdict. unfold class_getattr in Hget.
  destruct (e !! C) as [co|]; simpl in Hget; [|done].
  apply lookup_mro_Some in Hget as (_ & cd & Hcd & Hm).
  destruct (e0 !! D) as [cd'|] eqn:HD; simpl in Hdict; [|done].
  rewrite (extends_lookup _ _ _ _ Hext HD) in Hcd. by simplify_eq.
Qed.

End clients.

(** ** The object model: order of resolution and abstract names *)

Section c3_order.

Implicit Types (seqs : list (list string)) (s l : list string) (c x : string).

Lemma find_candidate_no_tail all seqs c s :
  find_candidate all seqs = Some c → s ∈ all → c ∉ tail s.
Proof.
  induction seqs as [|[|x t] r IH]; simpl; [done|done|].
  destruct (existsb (in_tail x) all) eqn:Hex; [done|].
  intros [= ->] Hs Hc.
  assert (existsb (in_tail c) all = true) as Hex'; [|congruence].
  apply existsb_exists. exists s. split; [by apply list_elem_of_In|].
  by apply bool_decide_eq_true.
Qed.

Lemma drop_head_free c s : c ∉ tail s → c ∉ drop_head c s.
Proof.
  destruct s as [|x t]; simpl; [by intros _ ?%elem_of_nil|].
  case_decide as Hx; [done|]. intros Ht [?|?]%elem_of_cons; congruence.
Qed.

(** A merge lists no class twice. *)
Lemma c3_merge_NoDup fuel seqs l : c3_merge fuel seqs = Some l → NoDup l.
Proof.
  revert seqs l. induction fuel as [|f IH]; intros seqs l; simpl;
    destruct (exhausted seqs) eqn:Hex;
    try (intros [= <-]; by apply NoDup_nil).
  destruct (find_candidate seqs seqs) as [c|] eqn:Hc; simpl; [|done].
  destruct (c3_merge f (drop_head c <$> seqs)) as [l'|] eqn:Hm; simpl; [|done].
  intros [= <-]. apply NoDup_cons. split; [|by eapply IH].
  intros Hin. destruct (c3_merge_sound _ _ _ _ Hm Hin) as (s' & Hs' & Hcs').
  apply list_elem_of_fmap in Hs' as (s & -> & Hs).
  eapply drop_head_free; [|done]. by eapply find_candidate_no_tail.
Qed.

(** A merge keeps the order of each merged sequence. *)
Lemma c3_merge_sublist fuel seqs l s :
  c3_merge fuel seqs = Some l → s ∈ seqs → sublist s l.
Proof.
  revert seqs l s. induction fuel as [|f IH]; intros seqs l s; simpl;
    destruct (exhausted seqs) eqn:Hex;
    try (intros [= <-] Hs; by rewrite (exhausted_nil _ _ Hex Hs)).
  destruct (find_candidate seqs seqs) as [c|] eqn:Hc; simpl; [|done].
  destruct (c3_merge f (drop_head c <$> seqs)) as [l'|] eqn:Hm; simpl; [|done].
  intros [= <-] Hs.
  assert (sublist (drop_head c s) l') as Hsub.
  { eapply IH; [done|]. apply list_elem_of_fmap. by exists s. }
  destruct s as [|x t]; [apply sublist_nil_l|]. simpl in Hsub.
  case_decide as Hx; [subst x; by apply sublist_skip|by apply sublist_cons].
Qed.

Lemma linearize_NoDup mros bases rest : linearize mros bases = Some rest → NoDup rest.
Proof. apply c3_merge_NoDup. Qed.

Lemma linearize_sublist mros bases rest m :
  linearize mros bases = Some rest → m ∈ mros → sublist m rest.
Proof.
  unfold linearize. intros Hm Hin. eapply c3_merge_sublist; [done|].
  apply elem_of_app. by left.
Qed.

(** The first class that defines a name is the same along a resolution
    order and along any part of it that contains that class. *)
Lemma lookup_mro_sublist (e : class_env) n s l D m :
  sublist s l → NoDup l →
  lookup_mro e n l = Some (D, m) → D ∈ s →
  lookup_mro e n s = Some (D, m).
Proof.
  induction 1 as [|x s l Hsub IH|x s l Hsub IH]; intros Hnd; simpl.
  - by intros _ ?%elem_of_nil.
  - apply NoDup_cons in Hnd as [Hx Hnd].
    destruct (e !! x ≫= _) as [m'|]; [done|].
    intros Hl [->|HD]%elem_of_cons; [|by apply IH].
    apply lookup_mro_Some in Hl as [Hin _]. done.
  - apply NoDup_cons in Hnd as [Hx Hnd].
    destruct (e !! x ≫= _) as [m'|].
    + intros [= -> ->] HD. destruct Hx. by eapply elem_of_sublist.
    + by apply IH.
Qed.

End c3_order.

Section blocking.

Implicit Types (e : class_env) (d : class_decl) (co : class_obj) (n C D : string).

Lemma blocking_root : abstract_blocking root_env.
Proof.
  unfold root_env. intros C co n D m cd _ Hl.
  apply lookup_mro_Some in Hl as (_ & cd' & [_ <-]%lookup_singleton_Some & Hm).
  simpl in Hm. by rewrite lookup_empty in Hm.
Qed.

(** Class creation never loses an abstract name. *)
Lemma blocking_define_class e d e' :
  wf_env e → abstract_blocking e → define_class e d = Return e' →
  abstract_blocking e'.
Proof.
  intros Hwf Hbl (bobjs & rest & Hfresh & Hb & Hlin & ->)%define_class_Return.
  set (name := c_name d) in *. set (bases := runtime_bases (c_bases d)) in *.
  set (new := ClassObj _ _ _ _).
  assert (Hrest : ∀ c, c ∈ rest → ∃ cd, e !! c = Some cd ∧ co_mro cd ⊆ rest).
  { intros c [Hc|(m & Hm & Hc)]%(linearize_sound _ _ _ _ Hlin).
    - destruct (bases_bound_l _ _ _ _ Hb Hc) as (cd & Hcd & Hlook).
      exists cd. split; [done|].
      eapply linearize_mros; [done|]. apply list_elem_of_fmap. by exists cd.
    - apply list_elem_of_fmap in Hm as (b & -> & Hbin).
      destruct (bases_bound_r _ _ _ _ Hb Hbin) as (bn & _ & Hbn).
      destruct (wf_closed _ Hwf _ _ _ Hbn Hc) as (cd & Hcd & Hsub).
      exists cd. split; [done|]. etrans; [done|].
      eapply linearize_mros; [done|]. apply list_elem_of_fmap. by exists b. }
  assert (Hsame : ∀ c, is_Some (e !! c) → <[name := new]> e !! c = e !! c).
  { intros c [cd Hc]. rewrite lookup_insert_ne; [done|]. by intros <-; simplify_eq. }
  assert (Hrest_same : ∀ c, c ∈ rest → <[name := new]> e !! c = e !! c).
  { intros c (cd & Hcd & _)%Hrest. apply Hsame. by exists cd. }
  intros C co n D m cd [[<- <-]|[Hne HC]]%lookup_insert_Some Hl Habs HD HABC.
  - assert (Hattr : lookup_mro (<[name := new]> e) n (co_mro new) =
              match c_methods d !! n with
              | Some m => Some (name, m)
              | None => lookup_mro e n rest
              end).
    { simpl. rewrite lookup_insert_eq. simpl.
      destruct (c_methods d !! n); [done|]. by apply lookup_mro_agree. }
    rewrite Hattr in Hl. simpl.
    assert ("ABC" ∈ name :: rest) as HABC'.
    { destruct (c_methods d !! n) as [m'|].
      - injection Hl as <- <-. rewrite lookup_insert_eq in HD. by injection HD as <-.
      - pose proof Hl as [HDin _]%lookup_mro_Some.
        destruct (Hrest _ HDin) as (cd' & Hcd' & Hsub).
        rewrite Hrest_same, Hcd' in HD by done. injection HD as <-.
        right. by apply Hsub. }
    rewrite bool_decide_eq_true_2 by done.
    apply elem_of_abstract_methods.
    destruct (c_methods d !! n) as [m'|] eqn:Hown.
    { left. injection Hl as <- <-. by exists m'. }
    right. pose proof Hl as [HDin _]%lookup_mro_Some.
    rewrite Hrest_same in HD by done.
    assert (∃ bn b, e !! bn = Some b ∧ b ∈ bobjs ∧ D ∈ co_mro b) as (bn & b & Hbn & Hbin & HDb).
    { apply (linearize_sound _ _ _ _ Hlin) in HDin as [HDb|(mb & Hmb & HDb)].
      - destruct (bases_bound_l _ _ _ _ Hb HDb) as (b & Hbin & Hlook).
        exists D, b. split; [done|]. split; [done|].
        pose proof (wf_head _ Hwf _ _ Hlook) as Hhd.
        destruct (co_mro b); simplify_eq/=. by left.
      - apply list_elem_of_fmap in Hmb as (b & -> & Hbin).
        destruct (bases_bound_r _ _ _ _ Hb Hbin) as (bn & _ & Hbn).
        by exists bn, b. }
    exists b. split; [done|]. split; [|by rewrite Hl].
    eapply (Hbl bn b n D m cd); [done| |done|done|done].
    eapply lookup_mro_sublist; [|by eapply linearize_NoDup|done|done].
    eapply linearize_sublist; [done|]. apply list_elem_of_fmap. by exists b.
  - assert (lookup_mro (<[name := new]> e) n (co_mro co) = lookup_mro e n (co_mro co)) as Hag.
    { apply lookup_mro_agree. intros c Hc. apply Hsame.
      destruct (wf_closed _ Hwf _ _ _ HC Hc) as (cd' & -> & _). by eexists. }
    rewrite Hag in Hl. pose proof Hl as [HDin _]%lookup_mro_Some.
    destruct (wf_closed _ Hwf _ _ _ HC HDin) as (cd' & Hcd' & _).
    rewrite Hsame, Hcd' in HD by by eexists. injection HD as <-.
    by eapply (Hbl C co n D m cd').
Qed.

Lemma blocking_exec_module ds e e' :
  wf_env e → abstract_blocking e → exec_module e ds = Return e' →
  abstract_blocking e'.
Proof.
  revert e. induction ds as [|d' ds IH]; intros e Hwf Hbl; simpl.
  - by intros [= <-].
  - destruct (define_class e d') as [e1|] eqn:Hd; simpl; [|done].
    apply IH; [by eapply wf_define_class|by eapply blocking_define_class].
Qed.

Lemma blocking_api_extends wp e : extends (api_env wp) e → abstract_blocking e.
Proof.
  intros Hext.
  assert (extends root_env e) as [ds Hds].
  { eapply extends_trans; [|done]. eexists. apply import_api_returns. }
  eapply blocking_exec_module; [apply wf_root|apply blocking_root|done].
Qed.

End blocking.

Section blocked.

Implicit Types (e : class_env) (n C D : string).

Lemma abstract_lookup_blocks e0 e C n D m mroD :
  extends e0 e → abstract_blocking e →
  class_getattr e C n = Some (D, m) → m_abstract m = true →
  co_mro <$> e0 !! D = Some mroD → "ABC" ∈ mroD →
  is_Some (e !! C) ∧ n ∈ abstractmethods e C.
Proof.
  intros Hext Hbl Hget Habs HD HABC. unfold class_getattr in Hget.
  destruct (e !! C) as [co|] eqn:HC; simpl in Hget; [|done].
  split; [by eexists|]. rewrite (abstractmethods_lookup _ _ _ HC).
  destruct (e0 !! D) as [cd|] eqn:HcD; simpl in HD; [|done].
  injection HD as <-.
  eapply (Hbl C co n D m cd); [done|done|done|by eapply extends_lookup|done].
Qed.

Lemma concrete_lookup_frees e C n D m :
  wf_env e → class_getattr e C n = Some (D, m) → m_abstract m = false →
  n ∉ abstractmethods e C.
Proof.
  intros Hwf Hget Hm. unfold class_getattr in Hget. unfold abstractmethods.
  destruct (e !! C) as [co|] eqn:HC; simpl in *; [|done].
  intros (_ & Habs & _)%(wf_abstract _ Hwf _ _ _ HC).
  rewrite Hget in Habs. simpl in Habs. congruence.
Qed.

End blocked.

Lemma api_placeholders wp :
  api_env wp !! "Stage" ≫= (λ co, co_dict co !! "save") = Some Stage.save_def ∧
  api_env wp !! "Stage" ≫= (λ co, co_dict co !! "load") = Some Stage.load_def ∧
  api_env wp !! "AlgoOperator" ≫= (λ co, co_dict co !! "transform")
  = Some AlgoOperator.transform_def.
Proof. split_all; vm_compute; reflexivity. Qed.

Lemma api_chain wp :
  issubclass (api_env wp) "Model" "Transformer" = true ∧
  issubclass (api_env wp) "Transformer" "AlgoOperator" = true ∧
  issubclass (api_env wp) "AlgoOperator" "Stage" = true.
Proof. split; [|split]; vm_compute; reflexivity. Qed.

(** C4: every instance of [Model] (of the class or of any subclass a
    client defines) is also an instance of [Transformer], of
    [AlgoOperator] and of [Stage], and the subclass chain
    Model <: Transformer <: AlgoOperator <: Stage holds in every
    environment that extends the module. *)
Theorem Model_subtype_chain wp e v :
  extends (api_env wp) e →
  isinstance e v "Model" = true →
  issubclass e "Model" "Transformer" = true ∧
  issubclass e "Transformer" "AlgoOperator" = true ∧
  issubclass e "AlgoOperator" "Stage" = true ∧
  isinstance e v "Transformer" = true ∧
  isinstance e v "AlgoOperator" = true ∧
  isinstance e v "Stage" = true.
Proof.
  intros Hext Hv. pose proof (wf_api_extends _ _ Hext) as Hwf.
  destruct (api_chain wp) as (HMT & HTA & HAS).
  apply (issubclass_extends _ _ _ _ Hext) in HMT, HTA, HAS.
  clear Hext.
  split; [exact HMT|]. split; [exact HTA|]. split; [exact HAS|].
  destruct v; try (vm_compute in Hv; discriminate Hv).
  unfold isinstance in *.
  assert (issubclass e cls "Transformer" = true) as HT
    by (eapply issubclass_trans; eassumption).
  assert (issubclass e cls "AlgoOperator" = true) as HA
    by (eapply issubclass_trans; eassumption).
  split; [exact HT|]. split; [exact HA|].
  eapply issubclass_trans; eassumption.
Qed.

Lemma Model_subtype_chain_witness :
  isinstance (after (api_env ∅) PlainModel) (VInstance "PlainModel" 0) "Stage" = true.
Proof.
  apply (Model_subtype_chain ∅ (after (api_env ∅) PlainModel) (VInstance "PlainModel" 0)).
  - apply extends_after. vm_compute. reflexivity.
  - vm_compute. reflexivity.
Defined.

Lemma api_Model_set_model_data wp :
  api_env wp !! "Model" ≫= (λ co, co_dict co !! "set_model_data")
  = Some Model.set_model_data_def.
Proof. vm_compute. reflexivity. Qed.

Lemma api_Model_get_model_data wp :
  api_env wp !! "Model" ≫= (λ co, co_dict co !! "get_model_data")
  = Some Model.get_model_data_def.
Proof. vm_compute. reflexivity. Qed.

Lemma api_Estimator_fit wp :
  api_env wp !! "Estimator" ≫= (λ co, co_dict co !! "fit") = Some Estimator.fit_def.
Proof. vm_compute. reflexivity. Qed.

(** C2: when [set_model_data] is not overridden (the lookup on the class
    of the receiver ends in [Model]), calling it with any list of
    arguments, the empty one included, raises
    [Exception("This operation is not supported.")] and returns
    nothing. *)
Theorem set_model_data_not_supported wp e C oid inputs m :
  extends (api_env wp) e →
  class_getattr e C "set_model_data" = Some ("Model", m) →
  call_method e (VInstance C oid) "set_model_data" inputs
    = Raise (Exception "This operation is not supported.") ∧
  returned (call_method e (VInstance C oid) "set_model_data" inputs) = None.
Proof.
  intros Hext Hget.
  rewrite (getattr_defined_in _ _ _ _ _ _ _ Hext Hget (api_Model_set_model_data wp)) in Hget.
  clear Hext. unfold call_method. rewrite Hget. split; reflexivity.
Qed.

Lemma set_model_data_not_supported_witness :
  call_method (after (api_env ∅) PlainModel) (VInstance "PlainModel" 0)
    "set_model_data" [VTable 1; VTable 2]
  = Raise (Exception "This operation is not supported.").
Proof.
  apply (set_model_data_not_supported ∅ (after (api_env ∅) PlainModel) "PlainModel" 0
           [VTable 1; VTable 2] Model.set_model_data_def).
  - apply extends_after. vm_compute. reflexivity.
  - vm_compute. reflexivity.
Defined.

(** C3: when [get_model_data] is not overridden (the lookup on the class
    of the receiver ends in [Model]), calling it raises
    [Exception("This operation is not supported.")] and returns
    nothing. *)
Theorem get_model_data_not_supported wp e C oid m :
  extends (api_env wp) e →
  class_getattr e C "get_model_data" = Some ("Model", m) →
  call_method e (VInstance C oid) "get_model_data" []
    = Raise (Exception "This operation is not supported.") ∧
  returned (call_method e (VInstance C oid) "get_model_data" []) = None.
Proof.
  intros Hext Hget.
  rewrite (getattr_defined_in _ _ _ _ _ _ _ Hext Hget (api_Model_get_model_data wp)) in Hget.
  clear Hext. unfold call_method. rewrite Hget. split; reflexivity.
Qed.

Lemma get_model_data_not_supported_witness :
  call_method (after (api_env ∅) PlainModel) (VInstance "PlainModel" 0)
    "get_model_data" []
  = Raise (Exception "This operation is not supported.").
Proof.
  apply (get_model_data_not_supported ∅ (after (api_env ∅) PlainModel) "PlainModel" 0
           Model.get_model_data_def).
  - apply extends_after. vm_compute. reflexivity.
  - vm_compute. reflexivity.
Defined.

Section bound_classes.

Implicit Types (e : class_env) (n C D : string).

Lemma issubclass_bound e0 e C B mro :
  extends e0 e → co_mro <$> e0 !! C = Some mro →
  issubclass e C B = bool_decide (B ∈ mro).
Proof.
  intros Hext Hmro. unfold issubclass.
  destruct (e0 !! C) as [co|] eqn:HC; simpl in Hmro; [|done].
  rewrite (extends_lookup _ _ _ _ Hext HC). by simplify_eq.
Qed.

Lemma dict_bound e0 e C d :
  extends e0 e → co_dict <$> e0 !! C = Some d → co_dict <$> e !! C = Some d.
Proof.
  intros Hext Hd. destruct (e0 !! C) as [co|] eqn:HC; simpl in Hd; [|done].
  by rewrite (extends_lookup _ _ _ _ Hext HC).
Qed.

Lemma lookup_mro_step e n c r d :
  co_dict <$> e !! c = Some d →
  lookup_mro e n (c :: r)
  = match d !! n with Some m => Some (c, m) | None => lookup_mro e n r end.
Proof. simpl. destruct (e !! c) as [co|]; simpl; [|done]. by intros [= ->]. Qed.

End bound_classes.

Lemma api_Exception_mro wp :
  co_mro <$> api_env wp !! "Exception" = Some ["Exception"; "BaseException"; "object"].
Proof. vm_compute. reflexivity. Qed.

(** C9: the failure of the default [set_model_data] and
    [get_model_data] is an instance of [Exception] itself with the
    message "This operation is not supported."; [Exception] is caught
    only by handlers for [Exception], [BaseException] or [object], and
    each handler that catches it catches every other exception derived
    from [Exception] too, so the type alone does not single it out. *)
Theorem unsupported_is_a_plain_Exception wp e handler x :
  extends (api_env wp) e →
  catches e handler (Exception "This operation is not supported.") = true →
  issubclass e (exn_class x) "Exception" = true →
  (∀ self inputs,
     raised (Model.set_model_data self inputs)
     = Some (Exn "Exception" "This operation is not supported.")) ∧
  (∀ self,
     raised (Model.get_model_data self)
     = Some (Exn "Exception" "This operation is not supported.")) ∧
  handler ∈ ["Exception"; "BaseException"; "object"] ∧
  catches e handler x = true.
Proof.
  intros Hext Hcatch Hx. pose proof (wf_api_extends _ _ Hext) as Hwf.
  split; [reflexivity|]. split; [reflexivity|].
  unfold catches in *. simpl in Hcatch. split.
  - rewrite (issubclass_bound _ _ _ _ _ Hext (api_Exception_mro wp)) in Hcatch.
    by apply bool_decide_eq_true in Hcatch.
  - clear Hext. eapply issubclass_trans; eassumption.
Qed.

Lemma unsupported_is_a_plain_Exception_witness :
  catches (after (api_env ∅) ValueError) "Exception" (Exn "ValueError" "bad value") = true.
Proof.
  apply (unsupported_is_a_plain_Exception ∅ (after (api_env ∅) ValueError)
           "Exception" (Exn "ValueError" "bad value")).
  - apply extends_after. vm_compute. reflexivity.
  - vm_compute. reflexivity.
  - vm_compute. reflexivity.
Defined.

(** C1 (how the code departs from it): [Estimator.fit] is not abstract
    and its body is [pass].  On an instance of a subclass that defines
    [save] and [load] only, [fit] returns [None] for every argument list,
    and [None] is not an instance of [Model]; with a [WithParams] that
    leaves nothing abstract such an instance exists. *)
Theorem Estimator_fit_returns_None wp save_body load_body oid inputs :
  call_method (after (api_env wp) (MinimalEstimator save_body load_body))
    (VInstance "MinimalEstimator" oid) "fit" inputs = Return VNone ∧
  isinstance (after (api_env wp) (MinimalEstimator save_body load_body))
    VNone "Model" = false ∧
  instantiate (after (api_env ∅) (MinimalEstimator save_body load_body))
    "MinimalEstimator" oid = Return (VInstance "MinimalEstimator" oid).
Proof. split; [|split]; vm_compute; reflexivity. Qed.

Section abstract_checks.

Implicit Types (e : class_env) (n C D : string).

Lemma declares_abstract_elem e C n :
  wf_env e →
  match e !! C with
  | Some co => bool_decide ("ABC" ∈ co_mro co) && is_abstract ((C,.) <$> co_dict co !! n)
  | None => false
  end = true →
  n ∈ abstractmethods e C.
Proof.
  intros Hwf. destruct (e !! C) as [co|] eqn:HC; [|done].
  intros [HABC Habs]%andb_true_iff. apply bool_decide_eq_true in HABC.
  rewrite (abstractmethods_lookup _ _ _ HC), (wf_abstract _ Hwf _ _ _ HC).
  destruct (co_dict co !! n) as [m|] eqn:Hm; [|done]. simpl in Habs.
  split; [done|]. split; [|left; by exists m].
  pose proof (wf_head _ Hwf _ _ HC) as Hhd.
  destruct (co_mro co) as [|c r]; simplify_eq/=. by rewrite HC; simpl; rewrite Hm.
Qed.

Lemma inherits_abstract_elem e C B n :
  wf_env e →
  n ∈ abstractmethods e B →
  match e !! C with
  | Some co =>
      bool_decide ("ABC" ∈ co_mro co) && bool_decide (B ∈ co_bases co)
      && is_abstract (lookup_mro e n (co_mro co))
  | None => false
  end = true →
  n ∈ abstractmethods e C.
Proof.
  intros Hwf HB. destruct (e !! C) as [co|] eqn:HC; [|done].
  intros [[HABC Hbase]%andb_true_iff Habs]%andb_true_iff.
  apply bool_decide_eq_true in HABC, Hbase.
  rewrite (abstractmethods_lookup _ _ _ HC), (wf_abstract _ Hwf _ _ _ HC).
  split; [done|]. split; [done|]. right. by exists B.
Qed.

Lemma resolves_concrete_not_elem e C n :
  wf_env e →
  match e !! C with
  | Some co => is_abstract (lookup_mro e n (co_mro co))
  | None => false
  end = false →
  n ∉ abstractmethods e C.
Proof.
  intros Hwf. unfold abstractmethods. destruct (e !! C) as [co|] eqn:HC; simpl.
  - intros Hf (_ & Habs & _)%(wf_abstract _ Hwf _ _ _ HC). congruence.
  - intros _. apply not_elem_of_empty.
Qed.

Lemma instantiate_abstract e C n oid :
  issubclass e C "BaseException" = false →
  is_Some (e !! C) → n ∈ abstractmethods e C →
  instantiate e C oid = Raise (abstract_error C (abstractmethods e C)).
Proof.
  intros Hex [co HC]. unfold instantiate, lookup_class, abstractmethods.
  unfold issubclass in Hex. rewrite HC in *. simpl. rewrite Hex.
  intros Hn. destruct (decide (co_abstract co = ∅)) as [Hempty|_]; [|done].
  rewrite Hempty in Hn. by apply elem_of_empty in Hn.
Qed.

Lemma instantiate_concrete e C oid :
  is_Some (e !! C) → abstractmethods e C = ∅ →
  instantiate e C oid = Return (VInstance C oid).
Proof.
  intros [co HC]. unfold instantiate, lookup_class, abstractmethods.
  rewrite HC. simpl. intros ->. destruct (bool_decide _); [done|by case_decide].
Qed.

Lemma instantiate_exception e C oid :
  issubclass e C "BaseException" = true →
  instantiate e C oid = Return (VInstance C oid).
Proof.
  unfold instantiate, lookup_class, issubclass.
  destruct (e !! C) as [co|]; [|done]. simpl. by intros ->.
Qed.

End abstract_checks.


Lemma api_dicts wp :
  co_dict <$> api_env wp !! "Stage" = Some (c_methods Stage.decl) ∧
  co_dict <$> api_env wp !! "AlgoOperator" = Some (c_methods AlgoOperator.decl) ∧
  co_dict <$> api_env wp !! "Transformer" = Some ∅ ∧
  co_dict <$> api_env wp !! "Model" = Some (c_methods Model.decl) ∧
  co_dict <$> api_env wp !! "Estimator" = Some (c_methods Estimator.decl) ∧
  co_dict <$> api_env wp !! "WithParams" = Some wp ∧
  co_dict <$> api_env wp !! "Generic" = Some ∅ ∧
  co_dict <$> api_env wp !! "ABC" = Some ∅ ∧
  co_dict <$> api_env wp !! "object" = Some ∅.
Proof. split_all; vm_compute; reflexivity. Qed.

Lemma api_mros wp :
  co_mro <$> api_env wp !! "Stage"
  = Some ["Stage"; "WithParams"; "Generic"; "ABC"; "object"] ∧
  co_mro <$> api_env wp !! "AlgoOperator"
  = Some ["AlgoOperator"; "Stage"; "WithParams"; "Generic"; "ABC"; "object"] ∧
  co_mro <$> api_env wp !! "Transformer"
  = Some ["Transformer"; "AlgoOperator"; "Stage"; "WithParams"; "Generic"; "ABC";
          "object"] ∧
  co_mro <$> api_env wp !! "Model"
  = Some ["Model"; "Transformer"; "AlgoOperator"; "Stage"; "WithParams"; "Generic";
          "ABC"; "object"] ∧
  co_mro <$> api_env wp !! "Estimator"
  = Some ["Estimator"; "Stage"; "WithParams"; "Generic"; "ABC"; "object"].
Proof. split_all; vm_compute; reflexivity. Qed.

Section resolution.

Implicit Types (e : class_env) (n C D : string).

Lemma class_getattr_mro e C n mro :
  co_mro <$> e !! C = Some mro → class_getattr e C n = lookup_mro e n mro.
Proof.
  unfold class_getattr. destruct (e !! C) as [co|]; simpl; [|done]. by intros [= ->].
Qed.

Lemma bound_is_Some {A} e C (f : class_obj → A) a : f <$> e !! C = Some a → is_Some (e !! C).
Proof. destruct (e !! C); [by eexists|done]. Qed.

End resolution.

(** Attribute lookup on [AlgoOperator], class by class along its
    resolution order. *)
Lemma getattr_AlgoOperator wp n :
  class_getattr (api_env wp) "AlgoOperator" n =
  match c_methods AlgoOperator.decl !! n with
  | Some m => Some ("AlgoOperator", m)
  | None =>
      match c_methods Stage.decl !! n with
      | Some m => Some ("Stage", m)
      | None => match wp !! n with Some m => Some ("WithParams", m) | None => None end
      end
  end.
Proof.
  destruct (api_dicts wp) as (HS & HA & HT & HM & HE & HW & HG & HB & HO).
  destruct (api_mros wp) as (_ & HmA & _).
  rewrite (class_getattr_mro _ _ _ _ HmA).
  rewrite (lookup_mro_step _ _ _ _ _ HA), (lookup_mro_step _ _ _ _ _ HS),
    (lookup_mro_step _ _ _ _ _ HW), (lookup_mro_step _ _ _ _ _ HG),
    (lookup_mro_step _ _ _ _ _ HB), (lookup_mro_step _ _ _ _ _ HO).
  rewrite !lookup_empty. reflexivity.
Qed.

Lemma getattr_Transformer wp n :
  class_getattr (api_env wp) "Transformer" n = class_getattr (api_env wp) "AlgoOperator" n.
Proof.
  destruct (api_dicts wp) as (HS & HA & HT & HM & HE & HW & HG & HB & HO).
  destruct (api_mros wp) as (_ & HmA & HmT & _).
  rewrite (class_getattr_mro _ _ _ _ HmA), (class_getattr_mro _ _ _ _ HmT).
  rewrite (lookup_mro_step _ _ _ _ _ HT). by rewrite lookup_empty.
Qed.

(** C8: [Transformer] declares no function, and in every environment
    that extends the module each attribute lookup on [Transformer] gives
    what the same lookup on [AlgoOperator] gives; the names that resolve
    are [transform], [save], [load] and the functions of
    [WithParams]. *)
Theorem Transformer_adds_no_operations wp e n :
  extends (api_env wp) e →
  c_methods Transformer.decl = ∅ ∧
  class_getattr e "Transformer" n = class_getattr e "AlgoOperator" n ∧
  callable e "Transformer" n = callable e "AlgoOperator" n ∧
  (callable e "Transformer" n = true ↔
     n ∈ ["transform"; "save"; "load"] ∨ is_Some (wp !! n)).
Proof.
  intros Hext.
  destruct (api_mros wp) as (_ & HmA & HmT & _).
  assert (class_getattr e "Transformer" n = class_getattr e "AlgoOperator" n) as Heq.
  { rewrite (class_getattr_extends _ _ "Transformer" n (wf_api wp) Hext (bound_is_Some _ _ _ _ HmT)).
    rewrite (class_getattr_extends _ _ "AlgoOperator" n (wf_api wp) Hext (bound_is_Some _ _ _ _ HmA)).
    apply getattr_Transformer. }
  split; [reflexivity|]. split; [exact Heq|].
  unfold callable. rewrite Heq. split; [reflexivity|].
  rewrite bool_decide_eq_true.
  rewrite (class_getattr_extends _ _ "AlgoOperator" n (wf_api wp) Hext (bound_is_Some _ _ _ _ HmA)).
  rewrite getattr_AlgoOperator. clear Hext HmA HmT.
  rewrite !elem_of_cons, elem_of_nil.
  destruct (decide (n = "transform")) as [->|Hn1].
  { split; [by auto|]. intros _. vm_compute. by eexists. }
  destruct (decide (n = "save")) as [->|Hn2].
  { split; [by auto|]. intros _. vm_compute. by eexists. }
  destruct (decide (n = "load")) as [->|Hn3].
  { split; [by auto|]. intros _. vm_compute. by eexists. }
  assert (c_methods AlgoOperator.decl !! n = None) as ->.
  { simpl. by rewrite lookup_insert_ne, lookup_empty. }
  assert (c_methods Stage.decl !! n = None) as ->.
  { simpl. by rewrite !lookup_insert_ne, lookup_empty. }
  destruct (wp !! n) as [m|]; split.
  - intros _. right. by eexists.
  - intros _. by eexists.
  - by intros [? Hx].
  - intros [[?|[?|[?|[]]]]|[? Hx]]; done.
Qed.

Lemma Transformer_adds_no_operations_witness :
  callable (api_env ∅) "Transformer" "transform" = callable (api_env ∅) "AlgoOperator" "transform".
Proof.
  pose proof (Transformer_adds_no_operations ∅ (api_env ∅) "transform"
                (extends_refl _)) as (_ & _ & Hsame & _).
  exact Hsame.
Defined.


Lemma api_abstract_save_load wp :
  Forall (λ C, is_Some (api_env wp !! C) ∧
               "save" ∈ abstractmethods (api_env wp) C ∧
               "load" ∈ abstractmethods (api_env wp) C)
    ["Stage"; "AlgoOperator"; "Transformer"; "Model"; "Estimator"].
Proof.
  pose proof (wf_api wp) as Hwf.
  destruct (api_mros wp) as (H1 & H2 & H3 & H4 & H5).
  apply (bound_is_Some _ _ co_mro) in H1, H2, H3, H4, H5.
  assert ("save" ∈ abstractmethods (api_env wp) "Stage") as HS1
    by (apply declares_abstract_elem; [exact Hwf|vm_compute; reflexivity]).
  assert ("load" ∈ abstractmethods (api_env wp) "Stage") as HS2
    by (apply declares_abstract_elem; [exact Hwf|vm_compute; reflexivity]).
  assert ("save" ∈ abstractmethods (api_env wp) "AlgoOperator") as HA1
    by (apply (inherits_abstract_elem _ _ "Stage"); [exact Hwf|exact HS1|vm_compute; reflexivity]).
  assert ("load" ∈ abstractmethods (api_env wp) "AlgoOperator") as HA2
    by (apply (inherits_abstract_elem _ _ "Stage"); [exact Hwf|exact HS2|vm_compute; reflexivity]).
  assert ("save" ∈ abstractmethods (api_env wp) "Transformer") as HT1
    by (apply (inherits_abstract_elem _ _ "AlgoOperator"); [exact Hwf|exact HA1|vm_compute; reflexivity]).
  assert ("load" ∈ abstractmethods (api_env wp) "Transformer") as HT2
    by (apply (inherits_abstract_elem _ _ "AlgoOperator"); [exact Hwf|exact HA2|vm_compute; reflexivity]).
  assert ("save" ∈ abstractmethods (api_env wp) "Model") as HM1
    by (apply (inherits_abstract_elem _ _ "Transformer"); [exact Hwf|exact HT1|vm_compute; reflexivity]).
  assert ("load" ∈ abstractmethods (api_env wp) "Model") as HM2
    by (apply (inherits_abstract_elem _ _ "Transformer"); [exact Hwf|exact HT2|vm_compute; reflexivity]).
  assert ("save" ∈ abstractmethods (api_env wp) "Estimator") as HE1
    by (apply (inherits_abstract_elem _ _ "Stage"); [exact Hwf|exact HS1|vm_compute; reflexivity]).
  assert ("load" ∈ abstractmethods (api_env wp) "Estimator") as HE2
    by (apply (inherits_abstract_elem _ _ "Stage"); [exact Hwf|exact HS2|vm_compute; reflexivity]).
  repeat apply Forall_cons_2; [..|apply Forall_nil_2]; (split; [|split]); assumption.
Qed.

Lemma api_abstract_transform wp :
  Forall (λ C, "transform" ∈ abstractmethods (api_env wp) C)
    ["AlgoOperator"; "Transformer"; "Model"].
Proof.
  pose proof (wf_api wp) as Hwf.
  assert ("transform" ∈ abstractmethods (api_env wp) "AlgoOperator") as HA
    by (apply declares_abstract_elem; [exact Hwf|vm_compute; reflexivity]).
  assert ("transform" ∈ abstractmethods (api_env wp) "Transformer") as HT
    by (apply (inherits_abstract_elem _ _ "AlgoOperator"); [exact Hwf|exact HA|vm_compute; reflexivity]).
  assert ("transform" ∈ abstractmethods (api_env wp) "Model") as HM
    by (apply (inherits_abstract_elem _ _ "Transformer"); [exact Hwf|exact HT|vm_compute; reflexivity]).
  repeat apply Forall_cons_2; [..|apply Forall_nil_2]; assumption.
Qed.

Section more_checks.

Implicit Types (e : class_env) (n C D : string).

Lemma abstract_resolves_abstract e C mro n :
  wf_env e → co_mro <$> e !! C = Some mro →
  n ∈ abstractmethods e C → is_abstract (lookup_mro e n mro) = true.
Proof.
  intros Hwf Hmro. unfold abstractmethods.
  destruct (e !! C) as [co|] eqn:HC; simpl in *; [|by intros ?%elem_of_empty].
  injection Hmro as <-. by intros (_ & Habs & _)%(wf_abstract _ Hwf _ _ _ HC).
Qed.

End more_checks.

(** Attribute lookup on a [MinimalEstimator], class by class. *)
Lemma getattr_MinimalEstimator wp sb lb n :
  let e := after (api_env wp) (MinimalEstimator sb lb) in
  lookup_mro e n
    ["MinimalEstimator"; "Estimator"; "Stage"; "WithParams"; "Generic"; "ABC"; "object"]
  = match c_methods (MinimalEstimator sb lb) !! n with
    | Some m => Some ("MinimalEstimator", m)
    | None =>
        match c_methods Estimator.decl !! n with
        | Some m => Some ("Estimator", m)
        | None =>
            match c_methods Stage.decl !! n with
            | Some m => Some ("Stage", m)
            | None =>
                match wp !! n with Some m => Some ("WithParams", m) | None => None end
            end
        end
    end.
Proof.
  intros e.
  assert (extends (api_env wp) e) as Hext
    by (apply extends_after; vm_compute; reflexivity).
  assert (co_dict <$> e !! "MinimalEstimator" = Some (c_methods (MinimalEstimator sb lb)))
    as HdM by (vm_compute; reflexivity).
  destruct (api_dicts wp) as (HS & HA & HT & HM & HE & HW & HG & HB & HO).
  apply (dict_bound _ _ _ _ Hext) in HS, HE, HW, HG, HB, HO.
  rewrite (lookup_mro_step _ _ _ _ _ HdM), (lookup_mro_step _ _ _ _ _ HE),
    (lookup_mro_step _ _ _ _ _ HS), (lookup_mro_step _ _ _ _ _ HW),
    (lookup_mro_step _ _ _ _ _ HG), (lookup_mro_step _ _ _ _ _ HB),
    (lookup_mro_step _ _ _ _ _ HO).
  rewrite !lookup_empty. reflexivity.
Qed.


Section signatures.

Implicit Types (e : class_env) (n C D : string).

Lemma forallb_tables e hs :
  forallb (conforms e (AName "Table")) (VTable <$> hs) = true.
Proof.
  induction hs as [|h hs IH]; [reflexivity|].
  change (conforms e (AName "Table") (VTable h)
          && forallb (conforms e (AName "Table")) (VTable <$> hs) = true).
  rewrite IH. reflexivity.
Qed.

Lemma conforms_tables e hs : conforms e List_Table (VList (VTable <$> hs)) = true.
Proof. exact (forallb_tables e hs). Qed.

Lemma variadic_accepts m recv args :
  m_params m = m_params AlgoOperator.transform_def →
  apply_method m recv args = m_body m recv args.
Proof. unfold apply_method. by intros ->. Qed.

Lemma subclass_callable e0 e C B n :
  wf_env e → extends e0 e →
  is_Some (e0 !! B ≫= λ co, co_dict co !! n) →
  issubclass e C B = true → callable e C n = true.
Proof.
  intros Hwf Hext [m Hm] Hsub. unfold issubclass in Hsub.
  destruct (e !! C) as [co|] eqn:HC; [|done].
  apply bool_decide_eq_true in Hsub.
  destruct (e0 !! B) as [cb|] eqn:HB; simpl in Hm; [|done].
  unfold callable, class_getattr. rewrite HC. simpl.
  apply bool_decide_eq_true.
  eapply lookup_mro_is_Some; [done|by eapply extends_lookup|by eexists].
Qed.

End signatures.


(** * Further properties of the module *)

(** X3: wherever [fit] is not overridden (the lookup ends in
    [Estimator]), calling it on an instance returns [None] for every
    argument list, and [fit] is not among the abstract names of the
    class. *)
Theorem fit_default_returns_None wp e C oid inputs m :
  extends (api_env wp) e →
  class_getattr e C "fit" = Some ("Estimator", m) →
  call_method e (VInstance C oid) "fit" inputs = Return VNone ∧
  "fit" ∉ abstractmethods e C.
Proof.
  intros Hext Hget.
  rewrite (getattr_defined_in _ _ _ _ _ _ _ Hext Hget (api_Estimator_fit wp)) in Hget.
  pose proof (wf_api_extends _ _ Hext) as Hwf. clear Hext. split.
  - unfold call_method. rewrite Hget. reflexivity.
  - by eapply concrete_lookup_frees.
Qed.

Lemma fit_default_returns_None_witness :
  call_method
    (after (api_env ∅) (MinimalEstimator (λ _ _, Return VNone) (λ _ _ _, Return VNone)))
    (VInstance "MinimalEstimator" 0) "fit" [VTable 3] = Return VNone.
Proof.
  apply (fit_default_returns_None ∅
           (after (api_env ∅) (MinimalEstimator (λ _ _, Return VNone) (λ _ _ _, Return VNone)))
           "MinimalEstimator" 0 [VTable 3] Estimator.fit_def).
  - apply extends_after. vm_compute. reflexivity.
  - vm_compute. reflexivity.
Defined.

Section frames.

Implicit Types (e : class_env) (n C B : string).

(** A class whose body does not define a name resolves it as the rest of
    its resolution order does. *)
Lemma class_getattr_skip e C B n dC mroB :
  co_mro <$> e !! C = Some (C :: mroB) → co_mro <$> e !! B = Some mroB →
  co_dict <$> e !! C = Some dC → dC !! n = None →
  class_getattr e C n = class_getattr e B n.
Proof.
  intros HmC HmB HdC Hn.
  rewrite (class_getattr_mro _ _ _ _ HmC), (class_getattr_mro _ _ _ _ HmB).
  by rewrite (lookup_mro_step _ _ _ _ _ HdC), Hn.
Qed.

Lemma mro_bound e0 e C mro :
  extends e0 e → co_mro <$> e0 !! C = Some mro → co_mro <$> e !! C = Some mro.
Proof.
  intros Hext Hm. destruct (e0 !! C) as [co|] eqn:HC; simpl in Hm; [|done].
  by rewrite (extends_lookup _ _ _ _ Hext HC).
Qed.

End frames.

Lemma api_WithParams_mro wp :
  co_mro <$> api_env wp !! "WithParams" = Some ["WithParams"; "Generic"; "ABC"; "object"].
Proof. vm_compute. reflexivity. Qed.

(** X4: each class of the module changes the lookup of its own names
    only: apart from [save] and [load], [Stage] resolves as
    [WithParams]; apart from [transform], [AlgoOperator] resolves as
    [Stage]; apart from [set_model_data] and [get_model_data], [Model]
    resolves as [Transformer]; apart from [fit], [Estimator] resolves as
    [Stage]. *)
Theorem classes_add_only_their_own_functions wp e n :
  extends (api_env wp) e →
  (n ∉ ["save"; "load"] →
   class_getattr e "Stage" n = class_getattr e "WithParams" n) ∧
  (n ≠ "transform" →
   class_getattr e "AlgoOperator" n = class_getattr e "Stage" n) ∧
  (n ∉ ["set_model_data"; "get_model_data"] →
   class_getattr e "Model" n = class_getattr e "Transformer" n) ∧
  (n ≠ "fit" →
   class_getattr e "Estimator" n = class_getattr e "Stage" n).
Proof.
  intros Hext.
  destruct (api_dicts wp) as (HS & HA & HT & HM & HE & HW & HG & HB & HO).
  destruct (api_mros wp) as (HmS & HmA & HmT & HmM & HmE).
  pose proof (api_WithParams_mro wp) as HmW.
  apply (dict_bound _ _ _ _ Hext) in HS, HA, HM, HE.
  apply (mro_bound _ _ _ _ Hext) in HmS, HmA, HmT, HmM, HmE, HmW.
  clear Hext. split_all.
  - intros Hn. eapply class_getattr_skip; [exact HmS|exact HmW|exact HS|].
    rewrite !elem_of_cons, elem_of_nil in Hn.
    simpl. rewrite !lookup_insert_ne, lookup_empty; [done|..]; intros <-; tauto.
  - intros Hn. eapply class_getattr_skip; [exact HmA|exact HmS|exact HA|].
    simpl. rewrite !lookup_insert_ne, lookup_empty; [done|..]; intros <-; tauto.
  - intros Hn. eapply class_getattr_skip; [exact HmM|exact HmT|exact HM|].
    rewrite !elem_of_cons, elem_of_nil in Hn.
    simpl. rewrite !lookup_insert_ne, lookup_empty; [done|..]; intros <-; tauto.
  - intros Hn. eapply class_getattr_skip; [exact HmE|exact HmS|exact HE|].
    simpl. rewrite !lookup_insert_ne, lookup_empty; [done|..]; intros <-; tauto.
Qed.

Lemma classes_add_only_their_own_functions_witness :
  class_getattr (api_env ∅) "Model" "transform"
  = class_getattr (api_env ∅) "Transformer" "transform".
Proof.
  pose proof (classes_add_only_their_own_functions ∅ (api_env ∅) "transform"
                (extends_refl _)) as (_ & _ & H & _).
  apply H. rewrite !elem_of_cons, elem_of_nil. intros [[=]|[[=]|[]]].
Defined.

Lemma getattr_Estimator wp n :
  class_getattr (api_env wp) "Estimator" n =
  match c_methods Estimator.decl !! n with
  | Some m => Some ("Estimator", m)
  | None =>
      match c_methods Stage.decl !! n with
      | Some m => Some ("Stage", m)
      | None => match wp !! n with Some m => Some ("WithParams", m) | None => None end
      end
  end.
Proof.
  destruct (api_dicts wp) as (HS & HA & HT & HM & HE & HW & HG & HB & HO).
  destruct (api_mros wp) as (_ & _ & _ & _ & HmE).
  rewrite (class_getattr_mro _ _ _ _ HmE).
  rewrite (lookup_mro_step _ _ _ _ _ HE), (lookup_mro_step _ _ _ _ _ HS),
    (lookup_mro_step _ _ _ _ _ HW), (lookup_mro_step _ _ _ _ _ HG),
    (lookup_mro_step _ _ _ _ _ HB), (lookup_mro_step _ _ _ _ _ HO).
  rewrite !lookup_empty. reflexivity.
Qed.

Lemma getattr_Model wp n :
  class_getattr (api_env wp) "Model" n =
  match c_methods Model.decl !! n with
  | Some m => Some ("Model", m)
  | None => class_getattr (api_env wp) "AlgoOperator" n
  end.
Proof.
  destruct (api_dicts wp) as (HS & HA & HT & HM & HE & HW & HG & HB & HO).
  destruct (api_mros wp) as (_ & HmA & _ & HmM & _).
  rewrite (class_getattr_mro _ _ _ _ HmM), (class_getattr_mro _ _ _ _ HmA).
  rewrite (lookup_mro_step _ _ _ _ _ HM), (lookup_mro_step _ _ _ _ _ HT).
  by rewrite lookup_empty.
Qed.

Lemma api_five_bound wp :
  is_Some (api_env wp !! "AlgoOperator") ∧ is_Some (api_env wp !! "Transformer") ∧
  is_Some (api_env wp !! "Model") ∧ is_Some (api_env wp !! "Estimator").
Proof.
  destruct (api_mros wp) as (_ & HmA & HmT & HmM & HmE).
  split_all.
  - exact (bound_is_Some _ _ _ _ HmA).
  - exact (bound_is_Some _ _ _ _ HmT).
  - exact (bound_is_Some _ _ _ _ HmM).
  - exact (bound_is_Some _ _ _ _ HmE).
Qed.

(** X5: [Estimator] and the [AlgoOperator] branch are unrelated:
    neither [Estimator] nor [AlgoOperator] or [Model] is a subclass of
    the other, [Estimator] has no [transform], [set_model_data] or
    [get_model_data], [Transformer] has no model-data accessor, and
    [AlgoOperator] and [Model] have no [fit], unless [WithParams]
    supplies the name. *)
Theorem estimators_and_operators_are_separate wp e :
  extends (api_env wp) e →
  issubclass e "Estimator" "AlgoOperator" = false ∧
  issubclass e "Estimator" "Model" = false ∧
  issubclass e "AlgoOperator" "Estimator" = false ∧
  issubclass e "Model" "Estimator" = false ∧
  (wp !! "transform" = None → callable e "Estimator" "transform" = false) ∧
  (wp !! "set_model_data" = None →
   callable e "Estimator" "set_model_data" = false ∧
   callable e "Transformer" "set_model_data" = false) ∧
  (wp !! "get_model_data" = None →
   callable e "Estimator" "get_model_data" = false ∧
   callable e "Transformer" "get_model_data" = false) ∧
  (wp !! "fit" = None →
   callable e "Model" "fit" = false ∧ callable e "AlgoOperator" "fit" = false).
Proof.
  intros Hext.
  destruct (api_mros wp) as (_ & HmA & _ & HmM & HmE).
  destruct (api_five_bound wp) as (HbA & HbT & HbM & HbE).
  pose proof (wf_api wp) as Hwf.
  unfold callable.
  rewrite !(class_getattr_extends _ _ "Estimator" _ Hwf Hext HbE),
    !(class_getattr_extends _ _ "Transformer" _ Hwf Hext HbT),
    !(class_getattr_extends _ _ "Model" _ Hwf Hext HbM),
    !(class_getattr_extends _ _ "AlgoOperator" _ Hwf Hext HbA).
  rewrite !(issubclass_bound _ _ "Estimator" _ _ Hext HmE),
    (issubclass_bound _ _ "AlgoOperator" _ _ Hext HmA),
    (issubclass_bound _ _ "Model" _ _ Hext HmM).
  clear Hext Hwf HmA HmM HmE HbA HbT HbM HbE.
  rewrite !getattr_Transformer, !getattr_Model, !getattr_Estimator, !getattr_AlgoOperator.
  split; [vm_compute; reflexivity|]. split; [vm_compute; reflexivity|].
  split; [vm_compute; reflexivity|]. split; [vm_compute; reflexivity|].
  split_all; intros Hwp; try split; rewrite ?Hwp; vm_compute; reflexivity.
Qed.

Lemma estimators_and_operators_are_separate_witness :
  callable (api_env ∅) "Estimator" "transform" = false.
Proof.
  pose proof (estimators_and_operators_are_separate ∅ (api_env ∅) (extends_refl _))
    as (_ & _ & _ & _ & H & _).
  apply H. apply lookup_empty.
Defined.

(** X6: wherever [set_model_data] or [get_model_data] still resolves to
    [Model]'s, the name is not among the abstract names of the class: the
    defaults never stand in the way of instantiation. *)
Theorem default_accessors_never_block wp e C n m :
  extends (api_env wp) e →
  n ∈ ["set_model_data"; "get_model_data"] →
  class_getattr e C n = Some ("Model", m) →
  n ∉ abstractmethods e C.
Proof.
  intros Hext Hn Hget. pose proof (wf_api_extends _ _ Hext) as Hwf.
  rewrite !elem_of_cons, elem_of_nil in Hn. destruct Hn as [->|[->|[]]].
  - rewrite (getattr_defined_in _ _ _ _ _ _ _ Hext Hget (api_Model_set_model_data wp))
      in Hget.
    clear Hext. by eapply concrete_lookup_frees.
  - rewrite (getattr_defined_in _ _ _ _ _ _ _ Hext Hget (api_Model_get_model_data wp))
      in Hget.
    clear Hext. by eapply concrete_lookup_frees.
Qed.

Lemma default_accessors_never_block_witness :
  "get_model_data" ∉ abstractmethods (after (api_env ∅) PlainModel) "PlainModel".
Proof.
  apply (default_accessors_never_block ∅ (after (api_env ∅) PlainModel) "PlainModel"
           "get_model_data" Model.get_model_data_def).
  - apply extends_after. vm_compute. reflexivity.
  - rewrite !elem_of_cons. auto.
  - vm_compute. reflexivity.
Defined.

(** Attribute lookup on a [MinimalModel], class by class. *)
Lemma getattr_MinimalModel wp sb lb tb n :
  lookup_mro (after (api_env wp) (MinimalModel sb lb tb)) n
    ["MinimalModel"; "Model"; "Transformer"; "AlgoOperator"; "Stage"; "WithParams";
     "Generic"; "ABC"; "object"]
  = match c_methods (MinimalModel sb lb tb) !! n with
    | Some m => Some ("MinimalModel", m)
    | None =>
        match c_methods Model.decl !! n with
        | Some m => Some ("Model", m)
        | None =>
            match c_methods AlgoOperator.decl !! n with
            | Some m => Some ("AlgoOperator", m)
            | None =>
                match c_methods Stage.decl !! n with
                | Some m => Some ("Stage", m)
                | None =>
                    match wp !! n with
                    | Some m => Some ("WithParams", m)
                    | None => None
                    end
                end
            end
        end
    end.
Proof.
  set (e := after (api_env wp) (MinimalModel sb lb tb)).
  assert (extends (api_env wp) e) as Hext
    by (apply extends_after; vm_compute; reflexivity).
  assert (co_dict <$> e !! "MinimalModel" = Some (c_methods (MinimalModel sb lb tb)))
    as HdM by (vm_compute; reflexivity).
  destruct (api_dicts wp) as (HS & HA & HT & HM & HE & HW & HG & HB & HO).
  apply (dict_bound _ _ _ _ Hext) in HS, HA, HT, HM, HW, HG, HB, HO.
  rewrite (lookup_mro_step _ _ _ _ _ HdM), (lookup_mro_step _ _ _ _ _ HM),
    (lookup_mro_step _ _ _ _ _ HT), (lookup_mro_step _ _ _ _ _ HA),
    (lookup_mro_step _ _ _ _ _ HS), (lookup_mro_step _ _ _ _ _ HW),
    (lookup_mro_step _ _ _ _ _ HG), (lookup_mro_step _ _ _ _ _ HB),
    (lookup_mro_step _ _ _ _ _ HO).
  rewrite !lookup_empty. reflexivity.
Qed.

Lemma MinimalModel_concrete wp sb lb tb :
  map_Forall (λ _ m, m_abstract m = false) wp →
  abstractmethods (after (api_env wp) (MinimalModel sb lb tb)) "MinimalModel" = ∅.
Proof.
  intros Hwp. set (e := after (api_env wp) (MinimalModel sb lb tb)).
  assert (wf_env e) as Hwf
    by (apply (wf_api_extends wp), extends_after; vm_compute; reflexivity).
  assert (co_mro <$> e !! "MinimalModel"
          = Some ["MinimalModel"; "Model"; "Transformer"; "AlgoOperator"; "Stage";
                  "WithParams"; "Generic"; "ABC"; "object"]) as Hmro
    by (vm_compute; reflexivity).
  apply elem_of_equiv_empty_L. intros n Hn.
  apply (abstract_resolves_abstract _ _ _ _ Hwf Hmro) in Hn.
  subst e. rewrite getattr_MinimalModel in Hn. clear Hwf Hmro.
  destruct (decide (n = "save")) as [->|Hn1]; [vm_compute in Hn; discriminate Hn|].
  destruct (decide (n = "load")) as [->|Hn2]; [vm_compute in Hn; discriminate Hn|].
  destruct (decide (n = "transform")) as [->|Hn3]; [vm_compute in Hn; discriminate Hn|].
  destruct (decide (n = "set_model_data")) as [->|Hn4]; [vm_compute in Hn; discriminate Hn|].
  destruct (decide (n = "get_model_data")) as [->|Hn5]; [vm_compute in Hn; discriminate Hn|].
  assert (c_methods (MinimalModel sb lb tb) !! n = None) as H1
    by (simpl; by rewrite !lookup_insert_ne, lookup_empty).
  assert (c_methods Model.decl !! n = None) as H2
    by (simpl; by rewrite !lookup_insert_ne, lookup_empty).
  assert (c_methods AlgoOperator.decl !! n = None) as H3
    by (simpl; by rewrite !lookup_insert_ne, lookup_empty).
  assert (c_methods Stage.decl !! n = None) as H4
    by (simpl; by rewrite !lookup_insert_ne, lookup_empty).
  rewrite H1, H2, H3, H4 in Hn.
  destruct (wp !! n) as [m|] eqn:Hw; simpl in Hn; [|discriminate Hn].
  specialize (Hwp n m Hw). simpl in Hwp. congruence.
Qed.

(** X7: a subclass of [Model] that defines [save], [load] and
    [transform], with any bodies, is instantiated (when [WithParams]
    leaves nothing abstract); on the instance [transform] runs the
    subclass's body and both model-data accessors raise
    [Exception("This operation is not supported.")]. *)
Theorem a_model_needs_only_save_load_transform wp sb lb tb oid inputs :
  map_Forall (λ _ m, m_abstract m = false) wp →
  instantiate (after (api_env wp) (MinimalModel sb lb tb)) "MinimalModel" oid
  = Return (VInstance "MinimalModel" oid) ∧
  call_method (after (api_env wp) (MinimalModel sb lb tb))
    (VInstance "MinimalModel" oid) "transform" inputs
  = tb (VInstance "MinimalModel" oid) inputs ∧
  call_method (after (api_env wp) (MinimalModel sb lb tb))
    (VInstance "MinimalModel" oid) "set_model_data" inputs
  = Raise (Exception "This operation is not supported.") ∧
  call_method (after (api_env wp) (MinimalModel sb lb tb))
    (VInstance "MinimalModel" oid) "get_model_data" []
  = Raise (Exception "This operation is not supported.").
Proof.
  intros Hwp. split; [|split_all; vm_compute; reflexivity].
  apply instantiate_concrete; [|by apply MinimalModel_concrete].
  apply (bound_is_Some _ _ co_mro
           ["MinimalModel"; "Model"; "Transformer"; "AlgoOperator"; "Stage";
            "WithParams"; "Generic"; "ABC"; "object"]).
  vm_compute. reflexivity.
Qed.

Lemma a_model_needs_only_save_load_transform_witness :
  instantiate
    (after (api_env ∅)
       (MinimalModel (λ _ _, Return VNone) (λ _ _ _, Return VNone)
          (λ _ inputs, Return (VList inputs))))
    "MinimalModel" 0
  = Return (VInstance "MinimalModel" 0).
Proof.
  apply (a_model_needs_only_save_load_transform ∅ (λ _ _, Return VNone)
           (λ _ _ _, Return VNone) (λ _ inputs, Return (VList inputs)) 0 []).
  apply map_Forall_empty.
Defined.

(** X8: [get_model_data] takes no argument: called with one or more on
    an instance that does not override it, the call raises [TypeError]
    and the "not supported" exception is not reached. *)
Theorem get_model_data_takes_no_argument wp e C oid a args m :
  extends (api_env wp) e →
  class_getattr e C "get_model_data" = Some ("Model", m) →
  exn_class <$> raised (call_method e (VInstance C oid) "get_model_data" (a :: args))
  = Some "TypeError" ∧
  raised (call_method e (VInstance C oid) "get_model_data" (a :: args))
  ≠ Some (Exception "This operation is not supported.").
Proof.
  intros Hext Hget.
  rewrite (getattr_defined_in _ _ _ _ _ _ _ Hext Hget (api_Model_get_model_data wp)) in Hget.
  clear Hext. unfold call_method. rewrite Hget. split; [reflexivity|].
  intros [=].
Qed.

Lemma get_model_data_takes_no_argument_witness :
  exn_class <$> raised (call_method (after (api_env ∅) PlainModel)
                          (VInstance "PlainModel" 0) "get_model_data" [VTable 1])
  = Some "TypeError".
Proof.
  apply (get_model_data_takes_no_argument ∅ (after (api_env ∅) PlainModel) "PlainModel" 0
           (VTable 1) [] Model.get_model_data_def).
  - apply extends_after. vm_compute. reflexivity.
  - vm_compute. reflexivity.
Defined.

(** X9: importing the module raises nothing, whatever functions
    [WithParams] defines; the bases recorded are the subscripted classes
    themselves and [ABC] ([Generic[E, M]] leaves no base of its own on
    [Estimator]), and the resolution orders are consistent. *)
Theorem importing_the_module_succeeds wp :
  import_api wp = Return (api_env wp) ∧
  co_bases <$> api_env wp !! "Stage" = Some ["WithParams"; "ABC"] ∧
  co_bases <$> api_env wp !! "AlgoOperator" = Some ["Stage"; "ABC"] ∧
  co_bases <$> api_env wp !! "Transformer" = Some ["AlgoOperator"; "ABC"] ∧
  co_bases <$> api_env wp !! "Model" = Some ["Transformer"; "ABC"] ∧
  co_bases <$> api_env wp !! "Estimator" = Some ["Stage"; "ABC"] ∧
  co_mro <$> api_env wp !! "Stage"
  = Some ["Stage"; "WithParams"; "Generic"; "ABC"; "object"] ∧
  co_mro <$> api_env wp !! "Model"
  = Some ["Model"; "Transformer"; "AlgoOperator"; "Stage"; "WithParams"; "Generic";
          "ABC"; "object"] ∧
  co_mro <$> api_env wp !! "Estimator"
  = Some ["Estimator"; "Stage"; "WithParams"; "Generic"; "ABC"; "object"].
Proof.
  split; [apply import_api_returns|].
  split_all; vm_compute; reflexivity.
Qed.

(** X10: called on the class with an explicit receiver, as an override
    does through [super()], the placeholder bodies of [save], [load] and
    [transform] return [None] and raise nothing. *)
Theorem placeholders_return_None_when_called wp e C self t_env path inputs m :
  extends (api_env wp) e →
  (class_getattr e C "save" = Some ("Stage", m) →
   call_method e (VClass C) "save" [self; path] = Return VNone) ∧
  (class_getattr e C "load" = Some ("Stage", m) →
   call_method e (VClass C) "load" [t_env; path] = Return VNone) ∧
  (class_getattr e C "transform" = Some ("AlgoOperator", m) →
   call_method e (VClass C) "transform" (self :: inputs) = Return VNone).
Proof.
  intros Hext. destruct (api_placeholders wp) as (Hsave & Hload & Htransform).
  split_all; intros Hget.
  - rewrite (getattr_defined_in _ _ _ _ _ _ _ Hext Hget Hsave) in Hget.
    clear Hext. unfold call_method. rewrite Hget. reflexivity.
  - rewrite (getattr_defined_in _ _ _ _ _ _ _ Hext Hget Hload) in Hget.
    clear Hext. unfold call_method. rewrite Hget. reflexivity.
  - rewrite (getattr_defined_in _ _ _ _ _ _ _ Hext Hget Htransform) in Hget.
    clear Hext. unfold call_method. rewrite Hget. reflexivity.
Qed.

Lemma placeholders_return_None_when_called_witness :
  call_method (after (api_env ∅) PlainModel) (VClass "Transformer") "transform"
    [VInstance "PlainModel" 0; VTable 1; VTable 2] = Return VNone.
Proof.
  pose proof (placeholders_return_None_when_called ∅ (after (api_env ∅) PlainModel)
                "Transformer" (VInstance "PlainModel" 0) VNone VNone
                [VTable 1; VTable 2] AlgoOperator.transform_def) as H.
  destruct H as (_ & _ & H).
  - apply extends_after. vm_compute. reflexivity.
  - apply H. vm_compute. reflexivity.
Defined.

(** * Abstract names, instantiation and declared signatures *)

Lemma api_not_exceptions wp :
  issubclass (api_env wp) "Stage" "BaseException" = false ∧
  issubclass (api_env wp) "AlgoOperator" "BaseException" = false ∧
  issubclass (api_env wp) "Transformer" "BaseException" = false ∧
  issubclass (api_env wp) "Model" "BaseException" = false ∧
  issubclass (api_env wp) "Estimator" "BaseException" = false.
Proof. split_all; vm_compute; reflexivity. Qed.

Lemma api_cannot_instantiate wp :
  Forall (λ C, "save" ∈ abstractmethods (api_env wp) C ∧
               "load" ∈ abstractmethods (api_env wp) C ∧
               ∀ oid, instantiate (api_env wp) C oid
                      = Raise (abstract_error C (abstractmethods (api_env wp) C)))
    ["Stage"; "AlgoOperator"; "Transformer"; "Model"; "Estimator"].
Proof.
  pose proof (api_abstract_save_load wp) as H. rewrite !Forall_cons in H.
  destruct H as ((B1 & S1 & L1) & (B2 & S2 & L2) & (B3 & S3 & L3) & (B4 & S4 & L4)
                 & (B5 & S5 & L5) & _).
  destruct (api_not_exceptions wp) as (E1 & E2 & E3 & E4 & E5).
  repeat apply Forall_cons_2; [..|apply Forall_nil_2];
    (split; [assumption|split; [assumption|intros oid]]).
  - exact (instantiate_abstract _ _ "save" oid E1 B1 S1).
  - exact (instantiate_abstract _ _ "save" oid E2 B2 S2).
  - exact (instantiate_abstract _ _ "save" oid E3 B3 S3).
  - exact (instantiate_abstract _ _ "save" oid E4 B4 S4).
  - exact (instantiate_abstract _ _ "save" oid E5 B5 S5).
Qed.

Lemma api_WithParams_order wp :
  co_mro <$> api_env wp !! "WithParams" = Some ["WithParams"; "Generic"; "ABC"; "object"].
Proof. vm_compute. reflexivity. Qed.

(** The abstract names of a [MinimalEstimator] are the ones [WithParams]
    leaves abstract, [save], [load] and [fit] apart. *)
Lemma MinimalEstimator_abstract wp sb lb n :
  n ∈ abstractmethods (after (api_env wp) (MinimalEstimator sb lb)) "MinimalEstimator" ↔
  (n ∉ ["save"; "load"; "fit"]) ∧ ∃ m, wp !! n = Some m ∧ m_abstract m = true.
Proof.
  assert (extends (api_env wp) (after (api_env wp) (MinimalEstimator sb lb))) as Hext
    by (apply extends_after; vm_compute; reflexivity).
  assert (co_mro <$> after (api_env wp) (MinimalEstimator sb lb) !! "MinimalEstimator"
          = Some ["MinimalEstimator"; "Estimator"; "Stage"; "WithParams"; "Generic";
                  "ABC"; "object"]) as Hmro by (vm_compute; reflexivity).
  pose proof (getattr_MinimalEstimator wp sb lb n) as Hget. cbv zeta in Hget.
  pose proof (api_WithParams_order wp) as HmW.
  remember (after (api_env wp) (MinimalEstimator sb lb)) as e eqn:Heqe. clear Heqe.
  pose proof (wf_api_extends _ _ Hext) as Hwf.
  pose proof (blocking_api_extends _ _ Hext) as Hbl.
  remember (api_env wp) as e0 eqn:Heqe0. clear Heqe0.
  rewrite !elem_of_cons, elem_of_nil.
  destruct (decide (n = "save")) as [->|Hn1].
  { split; [|tauto]. intros Hn.
    apply (abstract_resolves_abstract _ _ _ _ Hwf Hmro) in Hn. rewrite Hget in Hn.
    clear -Hn. vm_compute in Hn. discriminate Hn. }
  destruct (decide (n = "load")) as [->|Hn2].
  { split; [|tauto]. intros Hn.
    apply (abstract_resolves_abstract _ _ _ _ Hwf Hmro) in Hn. rewrite Hget in Hn.
    clear -Hn. vm_compute in Hn. discriminate Hn. }
  destruct (decide (n = "fit")) as [->|Hn3].
  { split; [|tauto]. intros Hn.
    apply (abstract_resolves_abstract _ _ _ _ Hwf Hmro) in Hn. rewrite Hget in Hn.
    clear -Hn. vm_compute in Hn. discriminate Hn. }
  assert (c_methods (MinimalEstimator sb lb) !! n = None) as Hm
    by (simpl; by rewrite !lookup_insert_ne, lookup_empty).
  assert (c_methods Estimator.decl !! n = None) as He
    by (simpl; by rewrite !lookup_insert_ne, lookup_empty).
  assert (c_methods Stage.decl !! n = None) as Hs
    by (simpl; by rewrite !lookup_insert_ne, lookup_empty).
  rewrite Hm, He, Hs in Hget. split.
  - intros Hn. split; [tauto|].
    apply (abstract_resolves_abstract _ _ _ _ Hwf Hmro) in Hn. rewrite Hget in Hn.
    destruct (wp !! n) as [m|]; [|discriminate Hn]. by exists m.
  - intros [_ (m & Hw & Habs)]. rewrite Hw in Hget.
    rewrite <- (class_getattr_mro _ _ _ _ Hmro) in Hget.
    eapply (abstract_lookup_blocks e0 e "MinimalEstimator" n "WithParams" m);
      [exact Hext|exact Hbl|exact Hget|exact Habs|exact HmW|].
    rewrite !elem_of_cons. auto.
Qed.

Lemma MinimalEstimator_instantiable wp sb lb oid :
  instantiate (after (api_env wp) (MinimalEstimator sb lb)) "MinimalEstimator" oid
  = Return (VInstance "MinimalEstimator" oid) ↔
  ∀ n m, wp !! n = Some m → m_abstract m = true → n ∈ ["save"; "load"; "fit"].
Proof.
  assert (is_Some (after (api_env wp) (MinimalEstimator sb lb) !! "MinimalEstimator")) as Hb.
  { apply (bound_is_Some _ _ co_mro
             ["MinimalEstimator"; "Estimator"; "Stage"; "WithParams"; "Generic";
              "ABC"; "object"]).
    vm_compute. reflexivity. }
  assert (issubclass (after (api_env wp) (MinimalEstimator sb lb))
            "MinimalEstimator" "BaseException" = false) as Hex
    by (vm_compute; reflexivity).
  pose proof (MinimalEstimator_abstract wp sb lb) as Habs.
  remember (after (api_env wp) (MinimalEstimator sb lb)) as e eqn:Heqe. clear Heqe.
  split.
  - intros Hinst n m Hw Hm.
    destruct (decide (n ∈ ["save"; "load"; "fit"])) as [|Hn]; [done|].
    assert (n ∈ abstractmethods e "MinimalEstimator") as Hin
      by (apply Habs; eauto).
    rewrite (instantiate_abstract _ _ n oid Hex Hb Hin) in Hinst. discriminate Hinst.
  - intros Hwp. apply instantiate_concrete; [exact Hb|].
    apply elem_of_equiv_empty_L. intros n [Hn (m & Hw & Hm)]%Habs.
    apply Hn. by eapply Hwp.
Qed.

(** C10 (as amended): each of the five classes keeps [save] and [load]
    in its [__abstractmethods__] ([AlgoOperator], [Transformer] and
    [Model] keep [transform] too), so instantiating any of them raises
    [TypeError]; [fit] is never abstract.  A subclass of [Estimator] that
    defines only [save] and [load] keeps [fit] resolving to
    [Estimator.fit]; its abstract names are exactly the ones [WithParams]
    leaves abstract ([save], [load] and [fit] apart), so it is
    instantiated exactly when [WithParams] leaves none. *)
Theorem abstract_classes_are_not_instantiable wp :
  Forall (λ C, "save" ∈ abstractmethods (api_env wp) C ∧
               "load" ∈ abstractmethods (api_env wp) C ∧
               ∀ oid, instantiate (api_env wp) C oid
                      = Raise (abstract_error C (abstractmethods (api_env wp) C)))
    ["Stage"; "AlgoOperator"; "Transformer"; "Model"; "Estimator"] ∧
  Forall (λ C, "transform" ∈ abstractmethods (api_env wp) C)
    ["AlgoOperator"; "Transformer"; "Model"] ∧
  ("fit" ∉ abstractmethods (api_env wp) "Estimator") ∧
  ∀ save_body load_body oid,
    c_methods (MinimalEstimator save_body load_body) !! "fit" = None ∧
    class_getattr (after (api_env wp) (MinimalEstimator save_body load_body))
      "MinimalEstimator" "fit" = Some ("Estimator", Estimator.fit_def) ∧
    (∀ n, n ∈ abstractmethods (after (api_env wp) (MinimalEstimator save_body load_body))
               "MinimalEstimator" ↔
          (n ∉ ["save"; "load"; "fit"]) ∧ ∃ m, wp !! n = Some m ∧ m_abstract m = true) ∧
    (instantiate (after (api_env wp) (MinimalEstimator save_body load_body))
       "MinimalEstimator" oid = Return (VInstance "MinimalEstimator" oid) ↔
     ∀ n m, wp !! n = Some m → m_abstract m = true → n ∈ ["save"; "load"; "fit"]).
Proof.
  split; [apply api_cannot_instantiate|].
  split; [apply api_abstract_transform|].
  split; [apply resolves_concrete_not_elem; [apply wf_api|vm_compute; reflexivity]|].
  intros sb lb oid.
  split; [vm_compute; reflexivity|]. split; [vm_compute; reflexivity|].
  split; [intros n; apply MinimalEstimator_abstract|apply MinimalEstimator_instantiable].
Qed.

Lemma abstract_classes_are_not_instantiable_witness :
  instantiate (after (api_env ∅) (MinimalEstimator (λ _ _, Return VNone) (λ _ _ _, Return VNone)))
    "MinimalEstimator" 0 = Return (VInstance "MinimalEstimator" 0).
Proof.
  pose proof (abstract_classes_are_not_instantiable ∅) as (_ & _ & _ & H).
  destruct (H (λ _ _, Return VNone) (λ _ _ _, Return VNone) 0) as (_ & _ & _ & Hinst).
  apply Hinst. intros n m Hn. by rewrite lookup_empty in Hn.
Defined.

(** Against C10 as first stated: with a [WithParams] that leaves
    [get_param_map] abstract, the subclass defining only [save] and
    [load] is not instantiated. *)
Lemma MinimalEstimator_with_abstract_params :
  instantiate
    (after (api_env abstract_params)
       (MinimalEstimator (λ _ _, Return VNone) (λ _ _ _, Return VNone)))
    "MinimalEstimator" 0
  ≠ Return (VInstance "MinimalEstimator" 0).
Proof.
  intros Hinst.
  pose proof (proj1 (MinimalEstimator_instantiable _ _ _ _) Hinst "get_param_map"
                (Method InstanceMethod true [] (AName "Dict") (nullary (λ _, Return VNone))))
    as Hin.
  rewrite !elem_of_cons, elem_of_nil in Hin.
  destruct Hin as [[=]|[[=]|[[=]|[]]]]; reflexivity.
Qed.

Lemma api_Stage_dict wp : co_dict <$> api_env wp !! "Stage" = Some (c_methods Stage.decl).
Proof. exact (proj1 (api_dicts wp)). Qed.

Lemma api_Stage_order wp :
  co_mro <$> api_env wp !! "Stage" = Some ["Stage"; "WithParams"; "Generic"; "ABC"; "object"].
Proof. exact (proj1 (api_mros wp)). Qed.

Lemma api_AlgoOperator_order wp :
  co_mro <$> api_env wp !! "AlgoOperator"
  = Some ["AlgoOperator"; "Stage"; "WithParams"; "Generic"; "ABC"; "object"].
Proof. exact (proj1 (proj2 (api_mros wp))). Qed.

(** A lookup that ends at one of the module's three placeholders finds
    the function of the module, and the name is abstract on the class. *)
Lemma placeholder_lookup wp e C n D m :
  extends (api_env wp) e →
  (D, n) ∈ [("Stage", "save"); ("Stage", "load"); ("AlgoOperator", "transform")] →
  class_getattr e C n = Some (D, m) →
  is_Some (e !! C) ∧ n ∈ abstractmethods e C ∧
  (n = "save" → m = Stage.save_def) ∧
  (n = "load" → m = Stage.load_def) ∧
  (n = "transform" → m = AlgoOperator.transform_def).
Proof.
  intros Hext Hin Hget.
  pose proof (blocking_api_extends _ _ Hext) as Hbl.
  destruct (api_placeholders wp) as (Hsave & Hload & Htransform).
  pose proof (api_Stage_order wp) as HmS.
  pose proof (api_AlgoOperator_order wp) as HmA.
  remember (api_env wp) as e0 eqn:Heqe0. clear Heqe0.
  rewrite !elem_of_cons, elem_of_nil in Hin.
  destruct Hin as [[= -> ->]|[[= -> ->]|[[= -> ->]|[]]]].
  - pose proof (getattr_defined_in _ _ _ _ _ _ _ Hext Hget Hsave) as ->.
    destruct (abstract_lookup_blocks e0 e C "save" "Stage" Stage.save_def _
                Hext Hbl Hget eq_refl HmS) as [Hb Hn];
      [rewrite !elem_of_cons; auto|].
    split; [exact Hb|]. split; [exact Hn|]. split_all; [done|intros [=]|intros [=]].
  - pose proof (getattr_defined_in _ _ _ _ _ _ _ Hext Hget Hload) as ->.
    destruct (abstract_lookup_blocks e0 e C "load" "Stage" Stage.load_def _
                Hext Hbl Hget eq_refl HmS) as [Hb Hn];
      [rewrite !elem_of_cons; auto|].
    split; [exact Hb|]. split; [exact Hn|]. split_all; [intros [=]|done|intros [=]].
  - pose proof (getattr_defined_in _ _ _ _ _ _ _ Hext Hget Htransform) as ->.
    destruct (abstract_lookup_blocks e0 e C "transform" "AlgoOperator"
                AlgoOperator.transform_def _ Hext Hbl Hget eq_refl HmA) as [Hb Hn];
      [rewrite !elem_of_cons; auto 10|].
    split; [exact Hb|]. split; [exact Hn|]. split_all; [intros [=]|intros [=]|done].
Qed.

(** C7 (as amended): the class body of [Stage] holds exactly [save] and
    [load], and both are abstract: wherever a lookup still ends at
    [Stage]'s definition the name is in [__abstractmethods__].  Neither
    has behaviour at this layer: [load], a classmethod called on the
    class with exactly a table environment and a path, returns [None]
    (which is no instance of [Stage]; its annotation [T] is left to
    overrides to honour), and [save], called with a receiver and exactly
    a path, returns [None]; any other number of arguments raises
    [TypeError]. *)
Theorem Stage_contributes_save_and_load wp e :
  extends (api_env wp) e →
  dom (c_methods Stage.decl) = {["save"; "load"]} ∧
  co_dict <$> e !! "Stage" = Some (c_methods Stage.decl) ∧
  (∀ C m, class_getattr e C "save" = Some ("Stage", m) →
     m = Stage.save_def ∧ "save" ∈ abstractmethods e C ∧
     ∀ self args,
       call_method e (VClass C) "save" (self :: args)
       = if bool_decide (length args = 1) then Return VNone else bad_call) ∧
  (∀ C m, class_getattr e C "load" = Some ("Stage", m) →
     m = Stage.load_def ∧ "load" ∈ abstractmethods e C ∧
     ∀ args,
       call_method e (VClass C) "load" args
       = if bool_decide (length args = 2) then Return VNone else bad_call) ∧
  isinstance e VNone "Stage" = false ∧
  (m_kind Stage.save_def = InstanceMethod ∧
   p_annot <$> m_params Stage.save_def = [AName "str"] ∧
   m_returns Stage.save_def = ANone) ∧
  (m_kind Stage.load_def = ClassMethod ∧
   p_annot <$> m_params Stage.load_def = [AName "StreamTableEnvironment"; AName "str"] ∧
   m_returns Stage.load_def = ATypeVar "T").
Proof.
  intros Hext.
  split; [simpl; rewrite !dom_insert_L, dom_empty_L; set_solver|].
  split; [exact (dict_bound _ _ _ _ Hext (api_Stage_dict wp))|].
  split; [|split; [|split; [reflexivity|split; split_all; reflexivity]]].
  - intros C m Hget.
    destruct (placeholder_lookup wp e C "save" "Stage" m Hext) as (_ & Hn & Hm & _);
      [rewrite !elem_of_cons; auto|exact Hget|].
    specialize (Hm eq_refl). subst m. clear Hext.
    split; [reflexivity|]. split; [exact Hn|]. intros self args.
    unfold call_method. rewrite Hget. by destruct args as [|a [|b r]].
  - intros C m Hget.
    destruct (placeholder_lookup wp e C "load" "Stage" m Hext) as (_ & Hn & _ & Hm & _);
      [rewrite !elem_of_cons; auto|exact Hget|].
    specialize (Hm eq_refl). subst m. clear Hext.
    split; [reflexivity|]. split; [exact Hn|]. intros args.
    unfold call_method. rewrite Hget. by destruct args as [|a [|b [|c r]]].
Qed.

Lemma Stage_contributes_save_and_load_witness :
  "load" ∈ abstractmethods (api_env ∅) "Estimator".
Proof.
  pose proof (Stage_contributes_save_and_load ∅ (api_env ∅) (extends_refl _))
    as (_ & _ & _ & H & _).
  apply (H "Estimator" Stage.load_def). vm_compute. reflexivity.
Defined.

(** Against C7 as first stated: [Stage.load] returns [None], not an
    instance. *)
Lemma Stage_load_returns_None :
  call_method (api_env ∅) (VClass "Stage") "load" [VTableEnv 0; VStr "model"]
  = Return VNone ∧
  isinstance (api_env ∅) VNone "Stage" = false.
Proof. split; vm_compute; reflexivity. Qed.

(** C6 (as amended): every subclass of [AlgoOperator] has a [transform]
    attribute; a [transform] that keeps the declared variadic parameter
    list accepts any number of tables, none included, and returns what
    its body returns; the declared result [List[Table]] describes lists
    of tables of every length and not [None], which is what the module's
    own abstract body returns; and the interface relates the numbers of
    inputs and outputs in no way: for all [ins] and [outs] there is an
    accepted subclass mapping the tables [ins] to the tables [outs]. *)
Theorem transform_takes_and_returns_tables wp e :
  extends (api_env wp) e →
  (∀ C, issubclass e C "AlgoOperator" = true → callable e C "transform" = true) ∧
  (∀ C D m oid inputs,
     class_getattr e C "transform" = Some (D, m) →
     m_kind m = InstanceMethod →
     m_params m = m_params AlgoOperator.transform_def →
     call_method e (VInstance C oid) "transform" inputs
     = m_body m (VInstance C oid) inputs) ∧
  (∀ C m, class_getattr e C "transform" = Some ("AlgoOperator", m) →
     m = AlgoOperator.transform_def ∧ "transform" ∈ abstractmethods e C ∧
     ∀ self inputs,
       call_method e (VClass C) "transform" (self :: inputs) = Return VNone) ∧
  m_returns AlgoOperator.transform_def = List_Table ∧
  (∀ outs, conforms e List_Table (VList (VTable <$> outs)) = true) ∧
  conforms e List_Table VNone = false ∧
  (∀ ins outs oid,
     extends (api_env wp) (after (api_env wp) (Resize outs)) ∧
     issubclass (after (api_env wp) (Resize outs)) "Resize" "AlgoOperator" = true ∧
     ("transform" ∉ abstractmethods (after (api_env wp) (Resize outs)) "Resize") ∧
     call_method (after (api_env wp) (Resize outs)) (VInstance "Resize" oid)
       "transform" (VTable <$> ins)
     = Return (VList (VTable <$> outs))).
Proof.
  intros Hext. split_all.
  - intros C Hsub.
    apply (subclass_callable (api_env wp) e C "AlgoOperator" "transform");
      [by eapply wf_api_extends|done| |done].
    clear Hext Hsub. exists AlgoOperator.transform_def. vm_compute. reflexivity.
  - intros C D m oid inputs Hget Hkind Hparams. clear Hext.
    unfold call_method. rewrite Hget, Hkind. by apply variadic_accepts.
  - intros C m Hget.
    destruct (placeholder_lookup wp e C "transform" "AlgoOperator" m Hext)
      as (_ & Hn & _ & _ & Hm); [rewrite !elem_of_cons; auto 10|exact Hget|].
    specialize (Hm eq_refl). subst m. clear Hext.
    split; [reflexivity|]. split; [exact Hn|]. intros self inputs.
    unfold call_method. rewrite Hget. reflexivity.
  - reflexivity.
  - intros outs. apply conforms_tables.
  - reflexivity.
  - intros ins outs oid. clear Hext.
    assert (extends (api_env wp) (after (api_env wp) (Resize outs))) as Hext
      by (apply extends_after; vm_compute; reflexivity).
    split; [exact Hext|]. split; [vm_compute; reflexivity|]. split.
    + apply resolves_concrete_not_elem;
        [by eapply wf_api_extends|vm_compute; reflexivity].
    + clear Hext. vm_compute. reflexivity.
Qed.

Lemma transform_takes_and_returns_tables_witness :
  callable (after (api_env ∅) (Resize [7; 8; 9])) "Resize" "transform" = true.
Proof.
  assert (extends (api_env ∅) (after (api_env ∅) (Resize [7; 8; 9]))) as Hext
    by (apply extends_after; vm_compute; reflexivity).
  pose proof (transform_takes_and_returns_tables ∅ _ Hext) as (H & _).
  apply H. vm_compute. reflexivity.
Defined.

(** Against C6 as first stated: an instantiated subclass of
    [AlgoOperator] whose [transform] refuses an empty argument list and
    returns [None]. *)
Lemma BadOp_ignores_the_declaration :
  issubclass (after (api_env ∅) BadOp) "BadOp" "AlgoOperator" = true ∧
  instantiate (after (api_env ∅) BadOp) "BadOp" 0 = Return (VInstance "BadOp" 0) ∧
  call_method (after (api_env ∅) BadOp) (VInstance "BadOp" 0) "transform" []
  = Raise (Exn "TypeError" "wrong number of positional arguments") ∧
  call_method (after (api_env ∅) BadOp) (VInstance "BadOp" 0) "transform" [VTable 1]
  = Return VNone ∧
  conforms (after (api_env ∅) BadOp) List_Table VNone = false.
Proof. split_all; vm_compute; reflexivity. Qed.





(** X11: a class that derives from [BaseException] and leaves
    [transform] to [AlgoOperator] is instantiated although [transform] is
    among its abstract names, and [transform] on the instance runs the
    module's body: it returns [None] for every argument list. *)
Theorem exception_classes_reach_the_placeholder wp e C oid inputs m :
  extends (api_env wp) e →
  issubclass e C "BaseException" = true →
  class_getattr e C "transform" = Some ("AlgoOperator", m) →
  "transform" ∈ abstractmethods e C ∧
  instantiate e C oid = Return (VInstance C oid) ∧
  call_method e (VInstance C oid) "transform" inputs = Return VNone.
Proof.
  intros Hext Hex Hget.
  destruct (placeholder_lookup wp e C "transform" "AlgoOperator" m Hext)
    as (_ & Hn & _ & _ & Hm); [rewrite !elem_of_cons; auto 10|exact Hget|].
  specialize (Hm eq_refl). subst m. clear Hext.
  split; [exact Hn|]. split; [by apply instantiate_exception|].
  unfold call_method. rewrite Hget. reflexivity.
Qed.

Lemma exception_classes_reach_the_placeholder_witness :
  call_method (after (api_env ∅) TransformError) (VInstance "TransformError" 0)
    "transform" [VTable 1; VTable 2] = Return VNone.
Proof.
  apply (exception_classes_reach_the_placeholder ∅ (after (api_env ∅) TransformError)
           "TransformError" 0 [VTable 1; VTable 2] AlgoOperator.transform_def).
  - apply extends_after. vm_compute. reflexivity.
  - vm_compute. reflexivity.
  - vm_compute. reflexivity.
Defined.
